(** * YouRoke: the mixing and synchronisation core

    A shallow embedding of the crossfader law ([src/utils/crossfaderCurve.ts]),
    the DJ store and the projector's sync-apply ([src/stores/djStore.ts],
    [src/components/ProjectorView.tsx]), the MIDI decoder
    ([hooks/useMidiController]) and the waveform analyser of the dev-server
    middleware ([generateWaveformData], [detectBPM],
    [generateSyntheticWaveform]); then the store's actions as TypeScript
    types them, the views that evaluate the law ([VideoMixer],
    [VideoPlayer], [MixerCenter], [ProjectorView]), device discovery and the
    wiring of the decoder to the store ([App]), and the waveform seek bar.

    Numbers.  A JavaScript [number] is modelled by an exact rational [Q]:
    every decimal literal of the source is the rational it denotes, [NaN] and
    the infinities are outside the model, and the places where the source
    relies on them (a division by a zero lag in [detectBPM], [Math.max] of an
    empty array) are written out as explicit cases.  Equality of numbers is
    [Qeq], written [==].  [Math.sin] and [Math.PI] are not rational: they are
    parameters of the synthetic generator.

    Objects.  A JavaScript object is a finite map from property names to
    values ([gmap string JsValue]); the spread [{...a, ...b}] is the union of the
    two maps in which [b] wins. *)

From Stdlib Require Import ZArith QArith Qminmax Qabs Qround Lia Lqa.
From Stdlib Require Import List String Ascii.
From Stdlib.Strings Require Import Byte.
From stdpp Require Import gmap strings.
Import ListNotations.

Local Open Scope Q_scope.

(** ** JavaScript primitives over [Q] *)

Module JS.

(** [x < y] as a boolean; [Qle_bool] is [<=]. *)
Definition Qlt_bool (x y : Q) : bool := negb (Qle_bool y x).

Definition Math_max (x y : Q) : Q := Qmax x y.
Definition Math_min (x y : Q) : Q := Qmin x y.
Definition Math_abs (x : Q) : Q := Qabs x.
Definition Math_floor (x : Q) : Z := Qfloor x.

(** [Math.round] rounds to the nearest integer, halves upwards. *)
Definition Math_round (x : Q) : Z := Qfloor (x + (1 # 2)).

End JS.

(** ** The crossfader law: [src/utils/crossfaderCurve.ts] *)

Module Crossfader.
Import JS.

Inductive CrossfaderCurve : Type := linear | cut.

Record CrossfaderOutput : Type := {
  deckAOpacity : Q;
  deckBOpacity : Q;
  deckAVolume : Q;
  deckBVolume : Q
}.

Definition applyCenterFullCurve (value : Q) : CrossfaderOutput :=
  let deckAVolume := if Qle_bool value (1 # 2) then 1 else (1 - value) * 2 in
  let deckBVolume := if Qle_bool value (1 # 2) then value * 2 else 1 in
  let totalVolume := deckAVolume + deckBVolume in
  let deckAOpacity :=
    if Qlt_bool 0 totalVolume then deckAVolume / totalVolume else 1 # 2 in
  let deckBOpacity :=
    if Qlt_bool 0 totalVolume then deckBVolume / totalVolume else 1 # 2 in
  {| deckAOpacity := deckAOpacity;
     deckBOpacity := deckBOpacity;
     deckAVolume := deckAVolume;
     deckBVolume := deckBVolume |}.

Definition applyCurve (value : Q) (_curve : CrossfaderCurve) : CrossfaderOutput :=
  let clampedValue := Math_max 0 (Math_min 1 value) in
  applyCenterFullCurve clampedValue.

(** A 7-bit MIDI value to a float in [0, 1]. *)
Definition midiToNormalized (midiValue : Q) : Q :=
  Math_max 0 (Math_min 127 midiValue) / 127.

(** A normalised float to a volume percentage (0-100). *)
Definition normalizedToVolume (normalized : Q) : Z :=
  Math_round (normalized * 100).

End Crossfader.

(** ** Objects, the store and the projector's mirrored state *)

Module Sync.
Import JS.

(** JavaScript values as they travel over the broadcast channel
    (structured clone of plain data). *)
#[warnings="-register-all"] Inductive JsValue : Type :=
  | VUndefined
  | VNull
  | VBool (b : bool)
  | VNum (q : Q)
  | VStr (s : string)
  | VObj (o : gmap string JsValue).

(** [{...a, ...b}]: the properties of [b] win. *)
Definition spread (a b : gmap string JsValue) : gmap string JsValue := b ∪ a.

Definition DEFAULT_EQ : gmap string JsValue :=
  {[ "high" := VNum 0; "mid" := VNum 0; "low" := VNum 0 ]}.

Definition DEFAULT_MASTER : gmap string JsValue :=
  {[ "volume" := VNum 1; "eq" := VObj DEFAULT_EQ ]}.

Definition DEFAULT_DECK_STATE : gmap string JsValue :=
  {[ "videoId" := VStr ""; "title" := VStr ""; "artist" := VStr "";
     "playing" := VBool false; "lyrics" := VStr "";
     "eq" := VObj DEFAULT_EQ; "gain" := VNum 1; "filter" := VNum 0;
     "currentTime" := VNum 0; "duration" := VNum 0; "seekTo" := VNull;
     "playbackRate" := VNum 1 ]}.

Definition DEFAULT_DJ_STATE : gmap string JsValue :=
  {[ "crossfaderValue" := VNum 0.5; "crossfaderCurve" := VStr "linear";
     "deckA" := VObj DEFAULT_DECK_STATE; "deckB" := VObj DEFAULT_DECK_STATE;
     "master" := VObj DEFAULT_MASTER;
     "audioEngineStarted" := VBool false; "isMidiConnected" := VBool false ]}.

(** zustand's [set(partial)] merges the partial object into the state
    ([Object.assign({}, state, partial)]). *)
Definition set (partial state : gmap string JsValue) : gmap string JsValue :=
  spread state partial.

(** The store's [setCrossfader]. *)
Definition setCrossfader (value : Q) (state : gmap string JsValue)
  : gmap string JsValue :=
  let clampedValue := Math_max 0 (Math_min 1 value) in
  set {[ "crossfaderValue" := VNum clampedValue ]} state.

(** The store's [updateDeckA]: the one place where a deck record is merged
    field by field.  [state.deckA] is always an object in the store. *)
Definition updateDeckA (updates state : gmap string JsValue)
  : gmap string JsValue :=
  match state !! "deckA" with
  | Some (VObj deckA) => set {[ "deckA" := VObj (spread deckA updates) ]} state
  | _ => set {[ "deckA" := VObj updates ]} state
  end.

(** [applyStateUpdate(updates)] is [useDJStore.setState(updates)]. *)
Definition applyStateUpdate (updates state : gmap string JsValue)
  : gmap string JsValue :=
  set updates state.

Inductive BroadcastMessage : Type :=
  | STATE_UPDATE (payload : gmap string JsValue)
  | FULL_STATE (payload : gmap string JsValue).

(** [ProjectorView]'s handler, as the transition of the mirrored state
    [prev]. *)
Definition handleBroadcastMessage (message : BroadcastMessage)
    (prev : gmap string JsValue) : gmap string JsValue :=
  match message with
  | FULL_STATE payload => payload
  | STATE_UPDATE payload => spread prev payload
  end.

(** [state.obj.field]: the property [field] of the record held under the
    top-level property [obj], when there is one. *)
Definition nestedField (state : gmap string JsValue) (obj field : string)
  : option JsValue :=
  match state !! obj with
  | Some (VObj o) => o !! field
  | _ => None
  end.

(** The crossfader position held by a state is a number in [0, 1]. *)
Definition crossfaderInRange (state : gmap string JsValue) : Prop :=
  exists q, state !! "crossfaderValue" = Some (VNum q) /\ 0 <= q <= 1.

End Sync.

(** ** The controller decoder: [handleMidiMessage] *)

Module Midi.
Import JS.

Module DDJ200.
Definition CROSSFADER_CC : Z := 51.
Definition DECK_A_PLAY_NOTE : Z := 11.
Definition DECK_A_CUE_NOTE : Z := 12.
Definition DECK_B_PLAY_NOTE : Z := 11.
Definition DECK_B_CUE_NOTE : Z := 12.
End DDJ200.

Inductive Deck : Type := DeckA | DeckB.

(** What one call of the handler does: the callback it invokes, the
    "Unmapped message" log line, or the silent early return on a message
    of fewer than two bytes. *)
Inductive ControllerEvent : Type :=
  | CrossfaderMove (normalizedValue : Q)
  | TransportToggle (deck : Deck)
  | CueTrigger (deck : Deck)
  | Unmapped
  | Dropped.

Definition noteOn (data1 channel : Z) : ControllerEvent :=
  if (data1 =? DDJ200.DECK_A_PLAY_NOTE)%Z && (channel =? 0)%Z
  then TransportToggle DeckA
  else if (data1 =? DDJ200.DECK_A_PLAY_NOTE)%Z && (channel =? 1)%Z
  then TransportToggle DeckB
  else if (data1 =? DDJ200.DECK_A_CUE_NOTE)%Z && (channel =? 0)%Z
  then CueTrigger DeckA
  else if (data1 =? DDJ200.DECK_A_CUE_NOTE)%Z && (channel =? 1)%Z
  then CueTrigger DeckB
  else Unmapped.

(** [data] is the event's [Uint8Array]. *)
Definition handleMidiMessage (data : list Z) : ControllerEvent :=
  match data with
  | status :: data1 :: rest =>
      let data2 := match rest with d :: _ => d | [] => 0%Z end in
      let messageType := Z.land status 0xf0 in
      let channel := Z.land status 0x0f in
      if (messageType =? 0xb0)%Z && (data1 =? DDJ200.CROSSFADER_CC)%Z
      then CrossfaderMove (Crossfader.midiToNormalized (inject_Z data2))
      else if (messageType =? 0x90)%Z && (0 <? data2)%Z
      then noteOn data1 channel
      else Unmapped
  | _ => Dropped
  end.

End Midi.

(** ** The waveform analyser of the dev-server middleware *)

Module Waveform.
Import JS.

(** Two-segment rescaling: below 0.4 into [0, 0.15], above into
    [0.15, 1]. *)
Definition applyDynamicScaling (value : Q) : Q :=
  let threshold := 0.4 in
  let thresholdOutput := 0.15 in
  if Qlt_bool value threshold
  then (value / threshold) * thresholdOutput
  else
    let normalizedAboveThreshold := (value - threshold) / (1 - threshold) in
    thresholdOutput + normalizedAboveThreshold * (1 - thresholdOutput).

(** [audioBuffer[j] || 0]: a byte of the buffer, 0 past its end. *)
Definition byteAt (audioBuffer : list byte) (j : nat) : Z :=
  match nth_error audioBuffer j with
  | Some b => Z.of_N (Byte.to_N b)
  | None => 0%Z
  end.

(** One turn of the inner loop: [sum += Math.abs(byte - 128); count++]. *)
Definition windowStep (audioBuffer : list byte) (acc : Z * nat) (j : nat)
  : Z * nat :=
  let '(sum, count) := acc in
  ((sum + Z.abs (byteAt audioBuffer j - 128))%Z, S count).

(** The body of the outer loop for sample [i]. *)
Definition windowSample (audioBuffer : list byte)
    (headerOffset adjustedBytesPerSample i : nat) : Q :=
  let start := (headerOffset + i * adjustedBytesPerSample)%nat in
  let end_ := Nat.min (start + adjustedBytesPerSample) (length audioBuffer) in
  let '(sum, count) :=
    fold_left (windowStep audioBuffer) (seq start (end_ - start)) (0%Z, 0%nat) in
  let avg :=
    if (0 <? count)%nat then inject_Z sum / inject_Z (Z.of_nat count) else 0 in
  Math_min 1 (avg / 80).

(** [Math.floor(audioBuffer.length * 0.01)] is the integer quotient by 100,
    and [Math.floor(dataLength / sampleCount)] the integer quotient.  With
    an empty [waveform], [Math.max()] is [-Infinity], below 0.02, and the
    result is the empty array. *)
Definition generateWaveformData (audioBuffer : list byte) (sampleCount : nat)
  : list Q :=
  let headerOffset := Nat.min 100 (length audioBuffer / 100) in
  let dataLength := (length audioBuffer - headerOffset)%nat in
  let adjustedBytesPerSample := (dataLength / sampleCount)%nat in
  let waveform :=
    map (windowSample audioBuffer headerOffset adjustedBytesPerSample)
        (seq 0 sampleCount) in
  match waveform with
  | [] => []
  | w :: ws =>
      let max := fold_left Math_max ws w in
      let min := fold_left Math_min ws w in
      let range := max - min in
      if Qlt_bool max 0.02 then map (fun _ => 0) waveform
      else
        let normalized :=
          if Qlt_bool 0.01 range
          then map (fun v => (v - min) / range) waveform
          else map (fun v => v / max) waveform in
        map applyDynamicScaling normalized
  end.

(** *** Tempo detection *)

(** The smoothed energy at [i]: the mean of [waveform[j]] for
    [max(0, i - windowSize) <= j < min(length, i + windowSize)]. *)
Definition envelopeAt (waveform : list Q) (windowSize i : nat) : Q :=
  let lo := (i - windowSize)%nat in
  let hi := Nat.min (length waveform) (i + windowSize) in
  let '(sum, count) :=
    fold_left (fun '(sum, count) j => (sum + nth j waveform 0, S count))
              (seq lo (hi - lo)) (0, 0%nat) in
  sum / inject_Z (Z.of_nat count).

Definition onsetAt (envelope : list Q) (i : nat) : Q :=
  let diff := nth i envelope 0 - nth (i - 1) envelope 0 in
  Math_max 0 diff.

(** The inner loop of the autocorrelation: the sum of products and the
    number of terms. *)
Definition correlationAt (onsets : list Q) (lag : nat) : Q * nat :=
  fold_left
    (fun '(correlation, count) i =>
       (correlation + nth i onsets 0 * nth (i + lag) onsets 0, S count))
    (seq 0 (length onsets - lag)) (0, 0%nat).

(** The body of the lag loop.  At [lag = 0] the source divides by zero:
    [bpmAtLag] is [Infinity], [tempoWeight] is [-Infinity] and the weighted
    correlation is [-Infinity] or [NaN], so the comparison with
    [bestCorrelation] is false and nothing is updated. *)
Definition lagStep (onsets : list Q) (samplesPerSecond : Q)
    (best : nat * Q) (lag : nat) : nat * Q :=
  let '(bestLag, bestCorrelation) := best in
  let '(correlation, count) := correlationAt onsets lag in
  if (0 <? count)%nat then
    match lag with
    | O => best
    | S _ =>
        let correlation := correlation / inject_Z (Z.of_nat count) in
        let bpmAtLag := (60 * samplesPerSecond) / inject_Z (Z.of_nat lag) in
        let tempoWeight := 1 - Math_abs (bpmAtLag - 125) / 200 in
        let correlation := correlation * (1 + tempoWeight * 0.3) in
        if Qlt_bool bestCorrelation correlation
        then (lag, correlation)
        else best
    end
  else best.

(** [for (lag = minLag; lag <= maxLag && lag < onsets.length / 2; lag++)]
    over the candidates [minLag .. maxLag]; the loop exits at the first lag
    that fails the second condition. *)
Fixpoint lagLoop (onsets : list Q) (samplesPerSecond : Q)
    (lags : list nat) (best : nat * Q) : nat * Q :=
  match lags with
  | [] => best
  | lag :: rest =>
      if Qlt_bool (inject_Z (Z.of_nat lag))
                  (inject_Z (Z.of_nat (length onsets)) / 2)
      then lagLoop onsets samplesPerSecond rest
                   (lagStep onsets samplesPerSecond best lag)
      else best
  end.

Definition detectBPM (waveform : list Q) (durationSeconds : Q) : Z :=
  if (length waveform <? 100)%nat || Qlt_bool durationSeconds 10 then 0%Z
  else
    let samplesPerSecond :=
      inject_Z (Z.of_nat (length waveform)) / durationSeconds in
    let minBPM := 60 in
    let maxBPM := 180 in
    let minLag := Z.to_nat (Math_floor ((60 / maxBPM) * samplesPerSecond)) in
    let maxLag := Z.to_nat (Math_floor ((60 / minBPM) * samplesPerSecond)) in
    let windowSize :=
      Z.to_nat (Z.max 3 (Math_floor (samplesPerSecond / 20))) in
    let envelope :=
      map (envelopeAt waveform windowSize) (seq 0 (length waveform)) in
    let onsets := map (onsetAt envelope) (seq 1 (length envelope - 1)) in
    let '(bestLag, _) :=
      lagLoop onsets samplesPerSecond (seq minLag (S maxLag - minLag))
              (0%nat, 0) in
    match bestLag with
    | O => 0%Z
    | S _ =>
        let bpm := (60 * samplesPerSecond) / inject_Z (Z.of_nat bestLag) in
        Math_round bpm
    end.

(** *** The synthetic fallback *)

Section Synthetic.
(** The platform's sine and the constant pi. *)
Variable Math_sin : Q -> Q.
Variable Math_PI : Q.

(** [seed += videoId.charCodeAt(i) * (i + 1) * 127] for each character. *)
Fixpoint seedLoop (chars : list ascii) (i : nat) (seed : Q) : Q :=
  match chars with
  | [] => seed
  | c :: rest =>
      seedLoop rest (S i)
        (seed + inject_Z (Z.of_nat (nat_of_ascii c))
                * inject_Z (Z.of_nat (i + 1)) * 127)
  end.

(** [videoId] is optional; the empty string is falsy and, like
    [undefined], leaves the seed at [duration * 1000]. *)
Definition seedOf (duration : Q) (videoId : option string) : Q :=
  let seed := duration * 1000 in
  match videoId with
  | Some s => seedLoop (list_ascii_of_string s) 0 seed
  | None => seed
  end.

Definition random (seed x : Q) : Q :=
  let val := Math_sin (x * 12.9898 + seed * 78.233) * 43758.5453 in
  val - inject_Z (Math_floor val).

(** The body of the sample loop. *)
Definition syntheticSample (samples : nat) (seed : Q) (i : nat) : Q :=
  let t := inject_Z (Z.of_nat i) / inject_Z (Z.of_nat samples) in
  let base :=
    if Qlt_bool t 0.05 then t * 7
    else if Qlt_bool 0.95 t then (1 - t) * 7
    else 0.35 + 0.15 * Math_sin (t * Math_PI) in
  let wave1 := Math_sin (t * 47 + seed * 0.01) * 0.12 in
  let wave2 := Math_sin (t * 113 + seed * 0.007) * 0.08 in
  let wave3 := Math_sin (t * 211 + seed * 0.003) * 0.06 in
  let noise := (random seed (inject_Z (Z.of_nat i)) - 0.5) * 0.25 in
  let value := base + wave1 + wave2 + wave3 + noise in
  let value := Math_max 0.08 (Math_min 1 (Math_abs value)) in
  let beatPattern := random seed (inject_Z (Z.of_nat i) * 0.1) in
  let value :=
    if Qlt_bool 0.85 beatPattern
    then Math_min 1 (value * (1.2 + beatPattern * 0.5))
    else value in
  let section := Z.rem (Math_floor (t * 8)) 4 in
  let value :=
    if (section =? 2)%Z || (section =? 3)%Z then value * 1.1 else value in
  value.

Definition generateSyntheticWaveform (samples : nat) (duration : Q)
    (videoId : option string) : list Q :=
  let seed := seedOf duration videoId in
  map (syntheticSample samples seed) (seq 0 samples).

End Synthetic.

End Waveform.

(** ** The store as TypeScript types it: [src/stores/djStore.ts] *)

Module Store.
Import JS Crossfader.

(** The properties [eq] and [filter] of the source are [eq_] (deck),
    [master_eq] (master) and [filter_] here. *)
Record EQSettings : Type := {
  high : Q;
  mid : Q;
  low : Q
}.

Record MasterSettings : Type := {
  volume : Q;
  master_eq : EQSettings
}.

(** [seekTo] is [number | null]: [None] is [null]. *)
Record DeckState : Type := {
  videoId : string;
  title : string;
  artist : string;
  playing : bool;
  lyrics : string;
  eq_ : EQSettings;
  gain : Q;
  filter_ : Q;
  currentTime : Q;
  duration : Q;
  seekTo : option Q;
  playbackRate : Q
}.

Record DJStoreState : Type := {
  crossfaderValue : Q;
  crossfaderCurve : CrossfaderCurve;
  deckA : DeckState;
  deckB : DeckState;
  master : MasterSettings;
  audioEngineStarted : bool;
  isMidiConnected : bool
}.

(** [Partial<EQSettings>] and [Partial<DeckState>]: an absent property is
    [None]. *)
Record PartialEQ : Type := {
  p_high : option Q;
  p_mid : option Q;
  p_low : option Q
}.

Record PartialDeck : Type := {
  p_videoId : option string;
  p_title : option string;
  p_artist : option string;
  p_playing : option bool;
  p_lyrics : option string;
  p_eq : option EQSettings;
  p_gain : option Q;
  p_filter : option Q;
  p_currentTime : option Q;
  p_duration : option Q;
  p_seekTo : option (option Q);
  p_playbackRate : option Q
}.

Definition DEFAULT_EQ : EQSettings := {| high := 0; mid := 0; low := 0 |}.

Definition DEFAULT_MASTER : MasterSettings :=
  {| volume := 1; master_eq := DEFAULT_EQ |}.

Definition DEFAULT_DECK_STATE : DeckState :=
  {| videoId := ""; title := ""; artist := ""; playing := false; lyrics := "";
     eq_ := DEFAULT_EQ; gain := 1; filter_ := 0; currentTime := 0;
     duration := 0; seekTo := None; playbackRate := 1 |}.

(** The initial state of [useDJStore]. *)
Definition initialState : DJStoreState :=
  {| crossfaderValue := 0.5; crossfaderCurve := linear;
     deckA := DEFAULT_DECK_STATE; deckB := DEFAULT_DECK_STATE;
     master := DEFAULT_MASTER;
     audioEngineStarted := false; isMidiConnected := false |}.

(** One property of a spread [{...old, ...updates}]. *)
Definition over {A : Type} (update : option A) (old : A) : A :=
  match update with
  | Some v => v
  | None => old
  end.

(** [{ ...eq, ...updates }] *)
Definition spreadEQ (e : EQSettings) (u : PartialEQ) : EQSettings :=
  {| high := over (p_high u) (high e);
     mid := over (p_mid u) (mid e);
     low := over (p_low u) (low e) |}.

(** [{ ...deck, ...updates }] *)
Definition spreadDeck (d : DeckState) (u : PartialDeck) : DeckState :=
  {| videoId := over (p_videoId u) (videoId d);
     title := over (p_title u) (title d);
     artist := over (p_artist u) (artist d);
     playing := over (p_playing u) (playing d);
     lyrics := over (p_lyrics u) (lyrics d);
     eq_ := over (p_eq u) (eq_ d);
     gain := over (p_gain u) (gain d);
     filter_ := over (p_filter u) (filter_ d);
     currentTime := over (p_currentTime u) (currentTime d);
     duration := over (p_duration u) (duration d);
     seekTo := over (p_seekTo u) (seekTo d);
     playbackRate := over (p_playbackRate u) (playbackRate d) |}.

(** [set({ deckA: d })] and its siblings: every other property is kept. *)
Definition withCrossfader (s : DJStoreState) (v : Q) : DJStoreState :=
  {| crossfaderValue := v; crossfaderCurve := crossfaderCurve s;
     deckA := deckA s; deckB := deckB s; master := master s;
     audioEngineStarted := audioEngineStarted s;
     isMidiConnected := isMidiConnected s |}.

Definition withCurve (s : DJStoreState) (c : CrossfaderCurve) : DJStoreState :=
  {| crossfaderValue := crossfaderValue s; crossfaderCurve := c;
     deckA := deckA s; deckB := deckB s; master := master s;
     audioEngineStarted := audioEngineStarted s;
     isMidiConnected := isMidiConnected s |}.

Definition withDeckA (s : DJStoreState) (d : DeckState) : DJStoreState :=
  {| crossfaderValue := crossfaderValue s; crossfaderCurve := crossfaderCurve s;
     deckA := d; deckB := deckB s; master := master s;
     audioEngineStarted := audioEngineStarted s;
     isMidiConnected := isMidiConnected s |}.

Definition withDeckB (s : DJStoreState) (d : DeckState) : DJStoreState :=
  {| crossfaderValue := crossfaderValue s; crossfaderCurve := crossfaderCurve s;
     deckA := deckA s; deckB := d; master := master s;
     audioEngineStarted := audioEngineStarted s;
     isMidiConnected := isMidiConnected s |}.

Definition withMaster (s : DJStoreState) (m : MasterSettings) : DJStoreState :=
  {| crossfaderValue := crossfaderValue s; crossfaderCurve := crossfaderCurve s;
     deckA := deckA s; deckB := deckB s; master := m;
     audioEngineStarted := audioEngineStarted s;
     isMidiConnected := isMidiConnected s |}.

Definition withAudioEngineStarted (s : DJStoreState) (b : bool) : DJStoreState :=
  {| crossfaderValue := crossfaderValue s; crossfaderCurve := crossfaderCurve s;
     deckA := deckA s; deckB := deckB s; master := master s;
     audioEngineStarted := b;
     isMidiConnected := isMidiConnected s |}.

Definition withMidiConnected (s : DJStoreState) (b : bool) : DJStoreState :=
  {| crossfaderValue := crossfaderValue s; crossfaderCurve := crossfaderCurve s;
     deckA := deckA s; deckB := deckB s; master := master s;
     audioEngineStarted := audioEngineStarted s;
     isMidiConnected := b |}.


(** The deck with one property replaced, as in
    [{ ...state.deckA, playing }]. *)
Definition deckWithPlaying (d : DeckState) (b : bool) : DeckState :=
  {| videoId := videoId d; title := title d; artist := artist d;
     playing := b; lyrics := lyrics d; eq_ := eq_ d; gain := gain d;
     filter_ := filter_ d; currentTime := currentTime d;
     duration := duration d; seekTo := seekTo d;
     playbackRate := playbackRate d |}.

Definition deckWithEQ (d : DeckState) (e : EQSettings) : DeckState :=
  {| videoId := videoId d; title := title d; artist := artist d;
     playing := playing d; lyrics := lyrics d; eq_ := e; gain := gain d;
     filter_ := filter_ d; currentTime := currentTime d;
     duration := duration d; seekTo := seekTo d;
     playbackRate := playbackRate d |}.

Definition deckWithGain (d : DeckState) (g : Q) : DeckState :=
  {| videoId := videoId d; title := title d; artist := artist d;
     playing := playing d; lyrics := lyrics d; eq_ := eq_ d; gain := g;
     filter_ := filter_ d; currentTime := currentTime d;
     duration := duration d; seekTo := seekTo d;
     playbackRate := playbackRate d |}.

Definition deckWithSeekTo (d : DeckState) (t : option Q) : DeckState :=
  {| videoId := videoId d; title := title d; artist := artist d;
     playing := playing d; lyrics := lyrics d; eq_ := eq_ d; gain := gain d;
     filter_ := filter_ d; currentTime := currentTime d;
     duration := duration d; seekTo := t;
     playbackRate := playbackRate d |}.

(** *** The actions *)

Definition setCrossfader (value : Q) (state : DJStoreState) : DJStoreState :=
  let clampedValue := Math_max 0 (Math_min 1 value) in
  withCrossfader state clampedValue.

Definition setCurve (curve : CrossfaderCurve) (state : DJStoreState)
  : DJStoreState :=
  withCurve state curve.

Definition updateDeckA (updates : PartialDeck) (state : DJStoreState)
  : DJStoreState :=
  withDeckA state (spreadDeck (deckA state) updates).

Definition updateDeckB (updates : PartialDeck) (state : DJStoreState)
  : DJStoreState :=
  withDeckB state (spreadDeck (deckB state) updates).

Definition toggleDeckAPlay (state : DJStoreState) : DJStoreState :=
  withDeckA state (deckWithPlaying (deckA state) (negb (playing (deckA state)))).

Definition toggleDeckBPlay (state : DJStoreState) : DJStoreState :=
  withDeckB state (deckWithPlaying (deckB state) (negb (playing (deckB state)))).

Definition setDeckAPlaying (playing : bool) (state : DJStoreState)
  : DJStoreState :=
  withDeckA state (deckWithPlaying (deckA state) playing).

Definition setDeckBPlaying (playing : bool) (state : DJStoreState)
  : DJStoreState :=
  withDeckB state (deckWithPlaying (deckB state) playing).

Definition setMidiConnected (connected : bool) (state : DJStoreState)
  : DJStoreState :=
  withMidiConnected state connected.

(** [startAudioEngine] sets the flag at the end of its [try] block; when the
    browser's audio context throws ([audioContextOk = false]) the [catch]
    logs and the state is left as it was. *)
Definition startAudioEngine (audioContextOk : bool) (state : DJStoreState)
  : DJStoreState :=
  if audioContextOk then withAudioEngineStarted state true else state.

Definition setDeckAEQ (eq : PartialEQ) (state : DJStoreState) : DJStoreState :=
  withDeckA state (deckWithEQ (deckA state) (spreadEQ (eq_ (deckA state)) eq)).

Definition setDeckBEQ (eq : PartialEQ) (state : DJStoreState) : DJStoreState :=
  withDeckB state (deckWithEQ (deckB state) (spreadEQ (eq_ (deckB state)) eq)).

Definition setDeckAGain (gain : Q) (state : DJStoreState) : DJStoreState :=
  withDeckA state
    (deckWithGain (deckA state) (Math_max 0 (Math_min 1.5 gain))).

Definition setDeckBGain (gain : Q) (state : DJStoreState) : DJStoreState :=
  withDeckB state
    (deckWithGain (deckB state) (Math_max 0 (Math_min 1.5 gain))).

Definition setMasterEQ (eq : PartialEQ) (state : DJStoreState) : DJStoreState :=
  withMaster state
    {| volume := volume (master state);
       master_eq := spreadEQ (master_eq (master state)) eq |}.

Definition setMasterVolume (volume : Q) (state : DJStoreState) : DJStoreState :=
  withMaster state
    {| volume := Math_max 0 (Math_min 1 volume);
       master_eq := master_eq (master state) |}.

Definition seekDeckA (time : Q) (state : DJStoreState) : DJStoreState :=
  withDeckA state (deckWithSeekTo (deckA state) (Some time)).

Definition seekDeckB (time : Q) (state : DJStoreState) : DJStoreState :=
  withDeckB state (deckWithSeekTo (deckB state) (Some time)).

Definition clearSeekA (state : DJStoreState) : DJStoreState :=
  withDeckA state (deckWithSeekTo (deckA state) None).

Definition clearSeekB (state : DJStoreState) : DJStoreState :=
  withDeckB state (deckWithSeekTo (deckB state) None).

(** The store's interface as one type: a call of an action. *)
Inductive Action : Type :=
  | SetCrossfader (value : Q)
  | SetCurve (curve : CrossfaderCurve)
  | UpdateDeckA (updates : PartialDeck)
  | UpdateDeckB (updates : PartialDeck)
  | ToggleDeckAPlay
  | ToggleDeckBPlay
  | SetDeckAPlaying (playing : bool)
  | SetDeckBPlaying (playing : bool)
  | SetMidiConnected (connected : bool)
  | StartAudioEngine (audioContextOk : bool)
  | SetDeckAEQ (eq : PartialEQ)
  | SetDeckBEQ (eq : PartialEQ)
  | SetDeckAGain (gain : Q)
  | SetDeckBGain (gain : Q)
  | SetMasterEQ (eq : PartialEQ)
  | SetMasterVolume (volume : Q)
  | SeekDeckA (time : Q)
  | SeekDeckB (time : Q)
  | ClearSeekA
  | ClearSeekB.

Definition call (a : Action) (state : DJStoreState) : DJStoreState :=
  match a with
  | SetCrossfader value => setCrossfader value state
  | SetCurve curve => setCurve curve state
  | UpdateDeckA updates => updateDeckA updates state
  | UpdateDeckB updates => updateDeckB updates state
  | ToggleDeckAPlay => toggleDeckAPlay state
  | ToggleDeckBPlay => toggleDeckBPlay state
  | SetDeckAPlaying playing => setDeckAPlaying playing state
  | SetDeckBPlaying playing => setDeckBPlaying playing state
  | SetMidiConnected connected => setMidiConnected connected state
  | StartAudioEngine ok => startAudioEngine ok state
  | SetDeckAEQ eq => setDeckAEQ eq state
  | SetDeckBEQ eq => setDeckBEQ eq state
  | SetDeckAGain gain => setDeckAGain gain state
  | SetDeckBGain gain => setDeckBGain gain state
  | SetMasterEQ eq => setMasterEQ eq state
  | SetMasterVolume volume => setMasterVolume volume state
  | SeekDeckA time => seekDeckA time state
  | SeekDeckB time => seekDeckB time state
  | ClearSeekA => clearSeekA state
  | ClearSeekB => clearSeekB state
  end.

(** The state after a sequence of calls, first call first. *)
Definition run (calls : list Action) (state : DJStoreState) : DJStoreState :=
  fold_left (fun s a => call a s) calls state.

(** The ranges the store's setters clamp to. *)
Definition mixInRange (s : DJStoreState) : Prop :=
  0 <= crossfaderValue s <= 1 /\ 0 <= volume (master s) <= 1.

Definition gainsInRange (s : DJStoreState) : Prop :=
  0 <= gain (deckA s) <= 1.5 /\ 0 <= gain (deckB s) <= 1.5.

(** Whether a call is an [updateDeckA]/[updateDeckB] whose patch carries a
    [gain]: the one way to write a gain without the clamp of
    [setDeckAGain]/[setDeckBGain]. *)
Definition writesRawGain (a : Action) : bool :=
  match a with
  | UpdateDeckA updates | UpdateDeckB updates =>
      match p_gain updates with
      | Some _ => true
      | None => false
      end
  | _ => false
  end.

(** *** The snapshot that is broadcast *)

Definition eqToJs (e : EQSettings) : gmap string Sync.JsValue :=
  {[ "high" := Sync.VNum (high e); "mid" := Sync.VNum (mid e);
     "low" := Sync.VNum (low e) ]}.

Definition masterToJs (m : MasterSettings) : gmap string Sync.JsValue :=
  {[ "volume" := Sync.VNum (volume m);
     "eq" := Sync.VObj (eqToJs (master_eq m)) ]}.

Definition seekToJs (t : option Q) : Sync.JsValue :=
  match t with
  | Some time => Sync.VNum time
  | None => Sync.VNull
  end.

Definition deckToJs (d : DeckState) : gmap string Sync.JsValue :=
  {[ "videoId" := Sync.VStr (videoId d); "title" := Sync.VStr (title d);
     "artist" := Sync.VStr (artist d); "playing" := Sync.VBool (playing d);
     "lyrics" := Sync.VStr (lyrics d); "eq" := Sync.VObj (eqToJs (eq_ d));
     "gain" := Sync.VNum (gain d); "filter" := Sync.VNum (filter_ d);
     "currentTime" := Sync.VNum (currentTime d);
     "duration" := Sync.VNum (duration d); "seekTo" := seekToJs (seekTo d);
     "playbackRate" := Sync.VNum (playbackRate d) ]}.

Definition curveToJs (c : CrossfaderCurve) : Sync.JsValue :=
  match c with
  | linear => Sync.VStr "linear"
  | cut => Sync.VStr "cut"
  end.

(** [getStoreState()]: the seven data properties of the store, without its
    actions, as the object that is posted on the channel. *)
Definition getStoreState (state : DJStoreState) : gmap string Sync.JsValue :=
  {[ "crossfaderValue" := Sync.VNum (crossfaderValue state);
     "crossfaderCurve" := curveToJs (crossfaderCurve state);
     "deckA" := Sync.VObj (deckToJs (deckA state));
     "deckB" := Sync.VObj (deckToJs (deckB state));
     "master" := Sync.VObj (masterToJs (master state));
     "audioEngineStarted" := Sync.VBool (audioEngineStarted state);
     "isMidiConnected" := Sync.VBool (isMidiConnected state) ]}.

End Store.

(** ** The views: [ProjectorView], [VideoMixer], [VideoPlayer], [MixerCenter] *)

Module Views.
Import JS Crossfader.

(** [VideoMixer] and [DeckDisplay] in the main window:
    [applyCurve(crossfaderValue, crossfaderCurve)] on the store. *)
Definition mixValues (state : Store.DJStoreState) : CrossfaderOutput :=
  applyCurve (Store.crossfaderValue state) (Store.crossfaderCurve state).

(** [ProjectorView]: the same call on the mirrored state.  The curve is not
    read by [applyCurve]; a position that is not a number is outside the
    model ([None]). *)
Definition projectorMixValues (state : gmap string Sync.JsValue)
  : option CrossfaderOutput :=
  match state !! "crossfaderValue" with
  | Some (Sync.VNum position) =>
      Some (applyCurve position
              match state !! "crossfaderCurve" with
              | Some (Sync.VStr "cut") => cut
              | _ => linear
              end)
  | _ => None
  end.

(** [VideoPlayer]: [Math.round(volume * 100)], handed to the player's
    [setVolume]. *)
Definition volumePercent (volume : Q) : Z := Math_round (volume * 100).

(** [MixerCenter]'s two percentage labels under the crossfader. *)
Definition labelA (crossfaderValue : Q) : Z :=
  Math_round
    ((if Qle_bool crossfaderValue 0.5 then 1
      else 1 - (crossfaderValue - 0.5) * 2) * 100).

Definition labelB (crossfaderValue : Q) : Z :=
  Math_round
    ((if Qle_bool 0.5 crossfaderValue then 1 else crossfaderValue * 2) * 100).

End Views.

(** ** The channel's listener: [useBroadcastChannel] *)

Module Channel.
Import Sync.

(** [channel.onmessage = (event) => onMessage(event.data)]: the receiver's
    state after the messages delivered to it, first delivery first. *)
Definition receive (messages : list BroadcastMessage)
    (state : gmap string JsValue) : gmap string JsValue :=
  fold_left (fun st message => handleBroadcastMessage message st) messages state.

End Channel.

(** ** Device discovery and the wiring of the decoder to the store *)

Module MidiSetup.
Import JS Midi.

Definition lowerAscii (c : ascii) : ascii :=
  let n := nat_of_ascii c in
  if ((65 <=? n) && (n <=? 90))%nat then ascii_of_nat (n + 32) else c.

Fixpoint lowerString (s : string) : string :=
  match s with
  | EmptyString => EmptyString
  | String c rest => String (lowerAscii c) (lowerString rest)
  end.

(** Whether [pattern] occurs in [s] at some position. *)
Fixpoint occursIn (pattern s : string) : bool :=
  if String.prefix pattern s then true
  else match s with
       | EmptyString => false
       | String _ rest => occursIn pattern rest
       end.

(** [DDJ200.DEVICE_NAME_PATTERN.test(name)], the pattern being [/DDJ-200/i]:
    the name contains "DDJ-200" in any letter case. *)
Definition DEVICE_NAME_PATTERN_test (name : string) : bool :=
  occursIn "ddj-200" (lowerString name).

(** [input.name && DDJ200.DEVICE_NAME_PATTERN.test(input.name)]: the input's
    name is a string or [null]. *)
Definition isDDJ200 (name : option string) : bool :=
  match name with
  | Some n => negb (String.eqb n "") && DEVICE_NAME_PATTERN_test n
  | None => false
  end.

(** [input.name || 'Unknown MIDI Device'] *)
Definition displayName (name : option string) : string :=
  match name with
  | Some n => if String.eqb n "" then "Unknown MIDI Device" else n
  | None => "Unknown MIDI Device"
  end.

(** One turn of [midiAccess.inputs.forEach]; the accumulator is
    [foundDevice] and the last name given to [setMidiDeviceName].  Every
    input gets the message handler, in both branches. *)
Definition setupStep (acc : bool * option string) (name : option string)
  : bool * option string :=
  let '(foundDevice, deviceName) := acc in
  if isDDJ200 name then (true, name)
  else if foundDevice then (foundDevice, deviceName)
  else (true, Some (displayName name)).

(** [setupMidiInputs]: the resulting [isMidiConnected] and
    [midiDeviceName]; with no input the name is reset to [null]. *)
Definition setupMidiInputs (inputs : list (option string))
  : bool * option string :=
  let '(foundDevice, deviceName) := fold_left setupStep inputs (false, None) in
  if foundDevice then (true, deviceName) else (false, None).

(** [App]'s wiring of the decoder's callbacks to the store: the crossfader
    and the two play toggles; no cue callback is passed, so a cue event calls
    nothing. *)
Definition eventAction (event : ControllerEvent) : option Store.Action :=
  match event with
  | CrossfaderMove value => Some (Store.SetCrossfader value)
  | TransportToggle DeckA => Some Store.ToggleDeckAPlay
  | TransportToggle DeckB => Some Store.ToggleDeckBPlay
  | CueTrigger _ => None
  | Unmapped => None
  | Dropped => None
  end.

(** The store after one MIDI message. *)
Definition onMidiMessage (data : list Z) (state : Store.DJStoreState)
  : Store.DJStoreState :=
  match eventAction (handleMidiMessage data) with
  | Some action => Store.call action state
  | None => state
  end.

End MidiSetup.

(** ** The waveform seek bar *)

Module SeekBar.
Import JS.

Definition cubicInterpolate (p0 p1 p2 p3 t : Q) : Q :=
  let t2 := t * t in
  let t3 := t2 * t in
  0.5 * ((2 * p1)
         + (- p0 + p2) * t
         + (2 * p0 - 5 * p1 + 4 * p2 - p3) * t2
         + (- p0 + 3 * p1 - 3 * p2 + p3) * t3).

(** [data[i]]: [undefined] ([None]) outside the array. *)
Definition at_ (data : list Q) (i : Z) : option Q :=
  if (i <? 0)%Z then None else nth_error data (Z.to_nat i).

(** [a ?? b] *)
Definition nullish (a : option Q) (b : Q) : Q :=
  match a with
  | Some v => v
  | None => b
  end.

Definition getInterpolatedValue (data : list Q) (position : Q) : Q :=
  match data with
  | [] => 0.5
  | first :: _ =>
      let len := Z.of_nat (length data) in
      let last := nullish (at_ data (len - 1)) first in
      let idx := Math_floor position in
      let t := position - inject_Z idx in
      let p0 := nullish (at_ data (Z.max 0 (idx - 1))) first in
      let p1 := nullish (at_ data (Z.max 0 (Z.min (len - 1) idx))) 0.5 in
      let p2 := nullish (at_ data (Z.min (len - 1) (idx + 1))) last in
      let p3 := nullish (at_ data (Z.min (len - 1) (idx + 2))) last in
      cubicInterpolate p0 p1 p2 p3 t
  end.

(** [handleClick]: the time handed to [onSeek], or [None] when the handler
    returns early ([!duration || duration <= 0]).  [x] is the click's offset
    from the left edge of the canvas and [width] the width of the canvas,
    which is positive for a canvas that can be clicked. *)
Definition handleClick (x width currentTime duration zoomSeconds : Q)
  : option Q :=
  if Qle_bool duration 0 then None
  else
    let centerX := width / 2 in
    let clickOffset := x - centerX in
    let visibleDuration := Math_min duration zoomSeconds in
    let timePerPixel := visibleDuration / width in
    let timeOffset := clickOffset * timePerPixel in
    let seekTime := currentTime + timeOffset in
    Some (Math_max 0 (Math_min duration seekTime)).

End SeekBar.

(** ** Concrete inputs used by the examples below *)

Module Inputs.
Import Sync.

(** A snapshot whose crossfader position is 2, outside [0, 1]. *)
Definition snapshotOutOfRange : gmap string JsValue :=
  <[ "crossfaderValue" := VNum 2 ]> DEFAULT_DJ_STATE.

(** A mirrored state with a track loaded on deck A. *)
Definition loadedDeckA : gmap string JsValue :=
  <[ "videoId" := VStr "abc123" ]>
    (<[ "title" := VStr "Song" ]> DEFAULT_DECK_STATE).

Definition mirroredLoaded : gmap string JsValue :=
  <[ "deckA" := VObj loadedDeckA ]> DEFAULT_DJ_STATE.

(** The patch [{deckA: {playing: true}}]. *)
Definition patchPlaying : gmap string JsValue :=
  {[ "deckA" := VObj {[ "playing" := VBool true ]} ]}.

(** A series of 100 samples, silent but for two full-scale samples at
    positions 50 and 51. *)
Definition twoSpikes : list Q := repeat 0 50 ++ [1; 1] ++ repeat 0 48.

(** A series of 2000 samples, as the endpoint produces for [samples=2000],
    silent but for four full-scale samples at positions 50 to 53. *)
Definition fourSpikes : list Q := repeat 0 50 ++ [1; 1; 1; 1] ++ repeat 0 1946.

(** Pi to fifteen decimals, and the sine, to nine decimals, at the six
    arguments at which sample 166 of
    [generateSyntheticWaveform(200, 180, "abc123")] evaluates it. *)
Definition piApprox : Q := 3.141592653589793.

Definition sineTable : list (Q * Q) :=
  [ (0.83 * piApprox, 0.509041416);
    (3543.35, -0.358362447);
    (2546.828, 0.843433214);
    (1226.432, 0.935921048);
    (27417659.4288, 0.163279598);
    (27415718.75268, 0.837205847) ].

Fixpoint lookupSine (table : list (Q * Q)) (x : Q) : Q :=
  match table with
  | [] => 0
  | (a, s) :: rest => if Qeq_bool x a then s else lookupSine rest x
  end.

Definition tableSin (x : Q) : Q := lookupSine sineTable x.

End Inputs.

(** * Properties *)

Section JsFacts.
Import JS.

Lemma Qlt_bool_iff (x y : Q) : Qlt_bool x y = true <-> x < y.
Proof.
  unfold Qlt_bool. rewrite negb_true_iff.
  split.
  - intros H. apply Qnot_le_lt. intros Hle.
    apply Qle_bool_iff in Hle. congruence.
  - intros H. destruct (Qle_bool y x) eqn:E; [|reflexivity].
    apply Qle_bool_iff in E. exfalso. apply (Qlt_not_le _ _ H E).
Qed.

Lemma Qle_bool_false_iff (x y : Q) : Qle_bool x y = false <-> y < x.
Proof.
  rewrite <- Qlt_bool_iff. unfold Qlt_bool. rewrite negb_true_iff. reflexivity.
Qed.

Lemma Math_max_min_clamp (lo hi x : Q) :
  lo <= hi -> lo <= Math_max lo (Math_min hi x) <= hi.
Proof.
  intros H. unfold Math_max, Math_min. split.
  - apply Q.le_max_l.
  - apply Q.max_lub; [exact H | apply Q.le_min_l].
Qed.

Lemma Math_max_min_id (lo hi x : Q) :
  lo <= x <= hi -> Math_max lo (Math_min hi x) == x.
Proof.
  intros [H1 H2]. unfold Math_max, Math_min.
  rewrite (Q.min_r hi x H2). apply Q.max_r. exact H1.
Qed.

Lemma Qlt_bool_false_iff (x y : Q) : Qlt_bool x y = false <-> y <= x.
Proof.
  unfold Qlt_bool. rewrite negb_false_iff. apply Qle_bool_iff.
Qed.

(** Division by a positive literal is multiplication by its inverse
    literal; [lra] takes over from there. *)
Lemma Qdiv_literal (x : Q) (n d : positive) :
  x / (Z.pos n # d) == x * (Z.pos d # n).
Proof. unfold Qdiv. reflexivity. Qed.

Lemma Qfloor_unique (x : Q) (n : Z) :
  inject_Z n <= x -> x < inject_Z (n + 1) -> Qfloor x = n.
Proof.
  intros H1 H2.
  pose proof (Qfloor_le x) as F1. pose proof (Qlt_floor x) as F2.
  assert (A : inject_Z n < inject_Z (Qfloor x + 1)) by lra.
  assert (B : inject_Z (Qfloor x) < inject_Z (n + 1)) by lra.
  rewrite <- Zlt_Qlt in A, B. lia.
Qed.

End JsFacts.

(** ** The crossfader law *)

Section CrossfaderFacts.
Import JS Crossfader.

(** Inside [0, 1] the clamp of [applyCurve] is the identity, so the
    evaluation is that of the center-full law at the position itself. *)
Lemma applyCurve_volumes (p : Q) (curve : CrossfaderCurve) :
  0 <= p <= 1 ->
  deckAVolume (applyCurve p curve)
    == (if Qle_bool p (1 # 2) then 1 else 2 * (1 - p)) /\
  deckBVolume (applyCurve p curve)
    == (if Qle_bool p (1 # 2) then 2 * p else 1).
Proof.
  intros Hp. pose proof (Math_max_min_id 0 1 p Hp) as Hc.
  unfold applyCurve, applyCenterFullCurve. cbn [deckAVolume deckBVolume].
  rewrite Hc.
  destruct (Qle_bool p (1 # 2)); split; try reflexivity; rewrite Hc; ring.
Qed.

(** The sum of the two volumes is at least 1 on [0, 1]: the degenerate
    branch of the opacity computation is not taken there. *)
Lemma applyCurve_total_ge_1 (p : Q) (curve : CrossfaderCurve) :
  0 <= p <= 1 ->
  1 <= deckAVolume (applyCurve p curve) + deckBVolume (applyCurve p curve).
Proof.
  intros Hp. destruct (applyCurve_volumes p curve Hp) as [HA HB].
  rewrite HA, HB. destruct Hp as [H0 H1].
  destruct (Qle_bool p (1 # 2)); lra.
Qed.

(** The opacities as the source computes them from the volumes. *)
Lemma applyCenterFullCurve_opacity (value : Q) :
  let out := applyCenterFullCurve value in
  let total := deckAVolume out + deckBVolume out in
  (0 < total ->
     deckAOpacity out == deckAVolume out / total /\
     deckBOpacity out == deckBVolume out / total) /\
  (total <= 0 -> deckAOpacity out == 1 # 2 /\ deckBOpacity out == 1 # 2).
Proof.
  unfold applyCenterFullCurve. cbn [deckAVolume deckBVolume deckAOpacity deckBOpacity].
  set (a := if Qle_bool value (1 # 2) then 1 else (1 - value) * 2).
  set (b := if Qle_bool value (1 # 2) then value * 2 else 1).
  split.
  - intros Hpos. apply Qlt_bool_iff in Hpos. rewrite Hpos. split; reflexivity.
  - intros Hneg. destruct (Qlt_bool 0 (a + b)) eqn:E.
    + apply Qlt_bool_iff in E. lra.
    + split; reflexivity.
Qed.

(** The degenerate case is reachable only outside [applyCurve]'s clamp, for
    instance at [-1/2], where both volumes cancel. *)
Example applyCenterFullCurve_degenerate :
  let out := applyCenterFullCurve (- (1 # 2)) in
  deckAVolume out + deckBVolume out == 0 /\
  deckAOpacity out = 1 # 2 /\ deckBOpacity out = 1 # 2.
Proof. cbv. repeat split. Qed.

(** C1.  For every curve mode and every position [p] in [0, 1],
    [applyCurve] returns volumeA = 1 and volumeB = 2p when [p <= 0.5], and
    volumeA = 2(1 - p) and volumeB = 1 when [p > 0.5]; one of the two
    volumes is 1 everywhere, and the result for [linear] is the result for
    [cut]. *)
Theorem C1_applyCurve_center_full (p : Q) (curve : CrossfaderCurve) :
  0 <= p <= 1 ->
  let out := applyCurve p curve in
  (p <= 1 # 2 -> deckAVolume out == 1 /\ deckBVolume out == 2 * p) /\
  (1 # 2 < p -> deckAVolume out == 2 * (1 - p) /\ deckBVolume out == 1) /\
  (deckAVolume out == 1 \/ deckBVolume out == 1) /\
  applyCurve p linear = applyCurve p cut.
Proof.
  intros Hp out. subst out.
  destruct (applyCurve_volumes p curve Hp) as [HA HB].
  split; [|split; [|split]].
  - intros Hle. apply Qle_bool_iff in Hle. rewrite Hle in HA, HB.
    split; assumption.
  - intros Hgt. apply Qle_bool_false_iff in Hgt. rewrite Hgt in HA, HB.
    split; assumption.
  - destruct (Qle_bool p (1 # 2)); [left; exact HA | right; exact HB].
  - reflexivity.
Qed.

Lemma C1_applyCurve_center_full_witness :
  let out := applyCurve (1 # 4) cut in
  deckAVolume out == 1 /\ deckBVolume out == 2 * (1 # 4).
Proof.
  assert (Hp : 0 <= 1 # 4 <= 1) by (split; discriminate).
  destruct (C1_applyCurve_center_full (1 # 4) cut Hp) as (H & _).
  apply H. discriminate.
Defined.

(** C2.  For every position [p] in [0, 1] and every curve mode the two
    opacities of [applyCurve] sum to 1; each is its volume divided by the
    sum of the volumes when that sum is not zero, and both are 0.5 when the
    sum is zero. *)
Theorem C2_applyCurve_opacity (p : Q) (curve : CrossfaderCurve) :
  0 <= p <= 1 ->
  let out := applyCurve p curve in
  let total := deckAVolume out + deckBVolume out in
  deckAOpacity out + deckBOpacity out == 1 /\
  (~ total == 0 ->
     deckAOpacity out == deckAVolume out / total /\
     deckBOpacity out == deckBVolume out / total) /\
  (total == 0 -> deckAOpacity out == 1 # 2 /\ deckBOpacity out == 1 # 2).
Proof.
  intros Hp out total.
  pose proof (applyCurve_total_ge_1 p curve Hp) as Hge. fold out in Hge.
  fold total in Hge.
  destruct (applyCenterFullCurve_opacity (Math_max 0 (Math_min 1 p)))
    as [Hpos Hzero].
  change (applyCenterFullCurve (Math_max 0 (Math_min 1 p))) with out in Hpos, Hzero.
  cbv zeta in Hpos, Hzero. fold total in Hpos, Hzero.
  assert (H0 : 0 < total) by lra.
  destruct (Hpos H0) as [HA HB].
  repeat split.
  - rewrite HA, HB. subst total.
    generalize dependent (deckAVolume out).
    generalize dependent (deckBVolume out).
    intros b a _ _ _ H0 _ _. field. lra.
  - exact HA.
  - exact HB.
  - intros; lra.
  - intros; lra.
Qed.

Lemma C2_applyCurve_opacity_witness :
  let out := applyCurve (3 # 4) linear in
  deckAOpacity out + deckBOpacity out == 1.
Proof.
  assert (Hp : 0 <= 3 # 4 <= 1) by (split; discriminate).
  exact (proj1 (C2_applyCurve_opacity (3 # 4) linear Hp)).
Defined.

Lemma midiToNormalized_range (midiValue : Q) :
  0 <= midiToNormalized midiValue <= 1.
Proof.
  unfold midiToNormalized.
  assert (H : 0 <= 127) by discriminate.
  destruct (Math_max_min_clamp 0 127 midiValue H) as [H1 H2].
  set (c := Math_max 0 (Math_min 127 midiValue)) in *.
  split.
  - apply Qle_shift_div_l; [reflexivity | lra].
  - apply Qle_shift_div_r; [reflexivity | lra].
Qed.

End CrossfaderFacts.

(** ** The store, the sync-apply and the decoder *)

Section SyncFacts.
Import JS Crossfader Sync Midi Inputs.

Lemma spread_lookup (a b : gmap string JsValue) (k : string) :
  spread a b !! k = match b !! k with Some v => Some v | None => a !! k end.
Proof.
  unfold spread. rewrite lookup_union.
  destruct (b !! k), (a !! k); reflexivity.
Qed.

Lemma setCrossfader_lookup (value : Q) (state : gmap string JsValue) :
  setCrossfader value state !! "crossfaderValue"
    = Some (VNum (Math_max 0 (Math_min 1 value))).
Proof.
  unfold setCrossfader, set. rewrite spread_lookup.
  rewrite lookup_singleton_eq. reflexivity.
Qed.

Lemma setCrossfader_in_range (value : Q) (state : gmap string JsValue) :
  crossfaderInRange (setCrossfader value state).
Proof.
  exists (Math_max 0 (Math_min 1 value)). split.
  - apply setCrossfader_lookup.
  - apply Math_max_min_clamp. discriminate.
Qed.

(** The crossfader path of the decoder hands a value in [0, 1] to its
    callback. *)
Lemma handleMidiMessage_crossfader_range (data : list Z) (v : Q) :
  handleMidiMessage data = CrossfaderMove v -> 0 <= v <= 1.
Proof.
  unfold handleMidiMessage.
  destruct data as [|status [|data1 rest]]; try discriminate.
  destruct ((Z.land status 240 =? 176)%Z && (data1 =? DDJ200.CROSSFADER_CC)%Z).
  - intros H. injection H as <-. apply midiToNormalized_range.
  - destruct ((Z.land status 240 =? 144)%Z && _); [|discriminate].
    unfold noteOn.
    repeat match goal with
           | |- context [if ?b then _ else _] => destruct b
           end; discriminate.
Qed.

Lemma not_in_range_2 (state : gmap string JsValue) :
  state !! "crossfaderValue" = Some (VNum 2) -> ~ crossfaderInRange state.
Proof.
  intros H (q & Hq & _ & Hle). rewrite H in Hq. injection Hq as <-.
  lra.
Qed.

(** C3, as stated, fails on the sync-apply paths: a [FULL_STATE] or a
    [STATE_UPDATE] that carries the position 2 leaves 2 in the mirrored
    state, and so does [applyStateUpdate] in the store. *)
Lemma C3_sync_apply_does_not_clamp :
  ~ crossfaderInRange
      (handleBroadcastMessage (FULL_STATE snapshotOutOfRange) DEFAULT_DJ_STATE) /\
  ~ crossfaderInRange
      (handleBroadcastMessage
         (STATE_UPDATE {[ "crossfaderValue" := VNum 2 ]}) DEFAULT_DJ_STATE) /\
  ~ crossfaderInRange
      (applyStateUpdate {[ "crossfaderValue" := VNum 2 ]} DEFAULT_DJ_STATE).
Proof.
  repeat split; apply not_in_range_2.
  - cbn [handleBroadcastMessage]. unfold snapshotOutOfRange.
    apply lookup_insert_eq.
  - cbn [handleBroadcastMessage]. rewrite spread_lookup.
    rewrite lookup_singleton_eq. reflexivity.
  - unfold applyStateUpdate, set. rewrite spread_lookup.
    rewrite lookup_singleton_eq. reflexivity.
Qed.

(** C3, amended.  The store's [setCrossfader] clamps its argument and the
    decoder's crossfader path produces a value in [0, 1]; the sync-apply of
    the secondary surface and [applyStateUpdate] store the incoming
    [crossfaderValue] as it is, so the position they leave is the one the
    message carries; [applyCurve] clamps the position again when it is
    evaluated. *)
Theorem C3_crossfader_write_boundaries :
  (forall value state, crossfaderInRange (setCrossfader value state)) /\
  (forall data v, handleMidiMessage data = CrossfaderMove v -> 0 <= v <= 1) /\
  (forall payload prev,
      handleBroadcastMessage (FULL_STATE payload) prev !! "crossfaderValue"
        = payload !! "crossfaderValue") /\
  (forall payload prev v,
      payload !! "crossfaderValue" = Some v ->
      handleBroadcastMessage (STATE_UPDATE payload) prev !! "crossfaderValue"
        = Some v) /\
  (forall updates state v,
      updates !! "crossfaderValue" = Some v ->
      applyStateUpdate updates state !! "crossfaderValue" = Some v) /\
  (forall value curve,
      let out := applyCurve value curve in
      0 <= deckAVolume out <= 1 /\ 0 <= deckBVolume out <= 1).
Proof.
  split; [exact setCrossfader_in_range|].
  split; [exact handleMidiMessage_crossfader_range|].
  split; [reflexivity|].
  split.
  { intros payload prev v H. cbn [handleBroadcastMessage].
    rewrite spread_lookup, H. reflexivity. }
  split.
  { intros updates state v H. unfold applyStateUpdate, set.
    rewrite spread_lookup, H. reflexivity. }
  intros value curve out. subst out.
  assert (H01 : 0 <= 1) by discriminate.
  pose proof (Math_max_min_clamp 0 1 value H01) as Hc.
  unfold applyCurve, applyCenterFullCurve. cbn [deckAVolume deckBVolume].
  set (c := Math_max 0 (Math_min 1 value)) in *.
  destruct (Qle_bool c (1 # 2)) eqn:E.
  - apply Qle_bool_iff in E. lra.
  - apply Qle_bool_false_iff in E. lra.
Qed.
Lemma C3_crossfader_write_boundaries_witness :
  handleBroadcastMessage
    (STATE_UPDATE {[ "crossfaderValue" := VNum 2 ]}) DEFAULT_DJ_STATE
    !! "crossfaderValue" = Some (VNum 2) /\
  0 <= Crossfader.midiToNormalized (inject_Z 64) <= 1.
Proof.
  destruct C3_crossfader_write_boundaries as (_ & Hmidi & _ & Hupd & _).
  split.
  - apply Hupd. apply lookup_singleton_eq.
  - apply (Hmidi [176; 51; 64]%Z). reflexivity.
Defined.

(** C7.  The decoder maps the triple [0xB0, 51, 127] to a crossfader move
    of value 1, the triple [0x90, 11, 100] to the transport toggle of deck
    A, and the triple [0x90, 11, 0], a note-on of velocity 0, to the
    unmapped case: no crossfader and no transport callback is invoked. *)
Theorem C7_decoder_examples :
  (exists v, handleMidiMessage [0xB0; 51; 127]%Z = CrossfaderMove v /\ v == 1) /\
  handleMidiMessage [0x90; 11; 100]%Z = TransportToggle DeckA /\
  handleMidiMessage [0x90; 11; 0]%Z = Unmapped.
Proof.
  split; [|split; reflexivity].
  eexists. split; [reflexivity|]. reflexivity.
Qed.

(** C8.  Applying a [STATE_UPDATE] changes exactly the top-level
    properties present in the patch and leaves every absent one as it was;
    the patch [{deckA: {playing: true}}] leaves [deckB], [crossfaderValue]
    and every other top-level property untouched; a [FULL_STATE] replaces
    the mirrored state by its payload. *)
Theorem C8_state_update_frame (prev payload : gmap string JsValue) :
  (forall k, payload !! k = None ->
     handleBroadcastMessage (STATE_UPDATE payload) prev !! k = prev !! k) /\
  (forall k v, payload !! k = Some v ->
     handleBroadcastMessage (STATE_UPDATE payload) prev !! k = Some v) /\
  (forall k, k <> "deckA"%string ->
     handleBroadcastMessage (STATE_UPDATE patchPlaying) prev !! k = prev !! k) /\
  handleBroadcastMessage (FULL_STATE payload) prev = payload.
Proof.
  repeat split.
  - intros k H. cbn [handleBroadcastMessage]. rewrite spread_lookup, H.
    reflexivity.
  - intros k v H. cbn [handleBroadcastMessage]. rewrite spread_lookup, H.
    reflexivity.
  - intros k Hk. cbn [handleBroadcastMessage]. rewrite spread_lookup.
    unfold patchPlaying. rewrite lookup_singleton_ne by congruence.
    reflexivity.
Qed.

Lemma C8_state_update_frame_witness :
  handleBroadcastMessage (STATE_UPDATE patchPlaying) mirroredLoaded !! "deckB"
    = mirroredLoaded !! "deckB" /\
  handleBroadcastMessage (STATE_UPDATE patchPlaying) mirroredLoaded
    !! "crossfaderValue" = Some (VNum 0.5).
Proof.
  destruct (C8_state_update_frame mirroredLoaded patchPlaying)
    as (Habsent & _ & Hother & _).
  split.
  - apply Habsent. unfold patchPlaying. apply lookup_singleton_ne.
    discriminate.
  - rewrite Hother by discriminate. reflexivity.
Defined.

(** C10.  The merge of a [STATE_UPDATE] is shallow: after the patch
    [{deckA: d}] the mirrored [deckA] is exactly [d], whatever it was
    before, so a property of the previous [deckA] that [d] does not have is
    gone. *)
Theorem C10_state_update_shallow (prev d : gmap string JsValue) :
  let next := handleBroadcastMessage (STATE_UPDATE {[ "deckA" := VObj d ]}) prev in
  next !! "deckA" = Some (VObj d) /\
  (forall field, nestedField next "deckA" field = d !! field) /\
  (forall field, d !! field = None -> nestedField next "deckA" field = None).
Proof.
  intros next.
  assert (H : next !! "deckA" = Some (VObj d)).
  { subst next. cbn [handleBroadcastMessage]. rewrite spread_lookup.
    rewrite lookup_singleton_eq. reflexivity. }
  split; [exact H|].
  assert (Hf : forall field, nestedField next "deckA" field = d !! field).
  { intros field. unfold nestedField. rewrite H. reflexivity. }
  split; [exact Hf|].
  intros field Hnone. rewrite Hf. exact Hnone.
Qed.

Lemma C10_state_update_shallow_witness :
  nestedField mirroredLoaded "deckA" "videoId" = Some (VStr "abc123") /\
  nestedField
    (handleBroadcastMessage (STATE_UPDATE patchPlaying) mirroredLoaded)
    "deckA" "videoId" = None.
Proof.
  split.
  - reflexivity.
  - apply (C10_state_update_shallow mirroredLoaded {[ "playing" := VBool true ]}).
    reflexivity.
Defined.

(** The store's own [updateDeckA] is the path that does merge a deck record
    field by field: the same update there keeps the loaded track. *)
Example updateDeckA_keeps_fields :
  nestedField (updateDeckA {[ "playing" := VBool true ]} mirroredLoaded)
              "deckA" "videoId" = Some (VStr "abc123").
Proof. reflexivity. Qed.

End SyncFacts.

(** ** The waveform extraction *)

Section WaveformDataFacts.
Import JS Waveform.

Lemma applyDynamicScaling_range (v : Q) :
  0 <= v <= 1 -> 0 <= applyDynamicScaling v <= 1.
Proof.
  intros [H0 H1]. unfold applyDynamicScaling.
  destruct (Qlt_bool v 0.4) eqn:E.
  - apply Qlt_bool_iff in E. rewrite Qdiv_literal. lra.
  - apply Qlt_bool_false_iff in E.
    assert (Hd : (v - 0.4) / (1 - 0.4) == (v - 0.4) * (5 # 3)) by (field).
    rewrite Hd. lra.
Qed.

(** *** The window loop *)

Lemma window_fold_count (buf : list byte) (l : list nat) (s : Z) (c : nat) :
  snd (fold_left (windowStep buf) l (s, c)) = (c + length l)%nat.
Proof.
  revert s c. induction l as [|j l IH]; intros s c; cbn [fold_left length].
  - cbn. lia.
  - unfold windowStep at 2. rewrite IH. lia.
Qed.

Lemma window_fold_nonneg (buf : list byte) (l : list nat) (s : Z) (c : nat) :
  (0 <= s)%Z -> (0 <= fst (fold_left (windowStep buf) l (s, c)))%Z.
Proof.
  revert s c. induction l as [|j l IH]; intros s c Hs; cbn [fold_left].
  - exact Hs.
  - unfold windowStep at 2. apply IH. lia.
Qed.

Lemma window_fold_silent (buf : list byte) (l : list nat) (s : Z) (c : nat) :
  (forall j, In j l -> byteAt buf j = 128%Z) ->
  fst (fold_left (windowStep buf) l (s, c)) = s.
Proof.
  revert s c. induction l as [|j l IH]; intros s c Hl; cbn [fold_left].
  - reflexivity.
  - unfold windowStep at 2. rewrite IH.
    + rewrite (Hl j) by (left; reflexivity). lia.
    + intros k Hk. apply Hl. right. exact Hk.
Qed.

Lemma windowSample_range (buf : list byte) (headerOffset abps i : nat) :
  0 <= windowSample buf headerOffset abps i <= 1.
Proof.
  unfold windowSample.
  set (start := (headerOffset + i * abps)%nat).
  set (end_ := Nat.min (start + abps) (length buf)).
  pose proof (window_fold_count buf (seq start (end_ - start)) 0 0) as Hc.
  pose proof (window_fold_nonneg buf (seq start (end_ - start)) 0 0
                (Z.le_refl 0)) as Hs.
  destruct (fold_left (windowStep buf) (seq start (end_ - start)) (0%Z, 0%nat))
    as [sum count].
  cbn [fst snd] in Hc, Hs.
  assert (Havg : 0 <= (if (0 <? count)%nat
                       then inject_Z sum / inject_Z (Z.of_nat count) else 0)).
  { destruct (0 <? count)%nat eqn:E; [|apply Qle_refl].
    apply Nat.ltb_lt in E.
    apply Qle_shift_div_l.
    - change 0 with (inject_Z 0). rewrite <- Zlt_Qlt. lia.
    - rewrite Qmult_0_l. change 0 with (inject_Z 0). rewrite <- Zle_Qle.
      exact Hs. }
  set (avg := if (0 <? count)%nat then _ else 0) in *.
  unfold Math_min. split.
  - apply Q.min_glb; [discriminate|]. rewrite Qdiv_literal. lra.
  - apply Q.le_min_l.
Qed.

Lemma byteAt_silent (buf : list byte) (j : nat) :
  Forall (fun b => b = x80) buf -> (j < length buf)%nat -> byteAt buf j = 128%Z.
Proof.
  intros Hall Hj. unfold byteAt.
  destruct (nth_error buf j) as [b|] eqn:E.
  - apply nth_error_In in E. rewrite List.Forall_forall in Hall.
    rewrite (Hall b E). reflexivity.
  - apply nth_error_None in E. lia.
Qed.

Lemma windowSample_silent (buf : list byte) (headerOffset abps i : nat) :
  Forall (fun b => b = x80) buf ->
  windowSample buf headerOffset abps i == 0.
Proof.
  intros Hall. unfold windowSample.
  set (start := (headerOffset + i * abps)%nat).
  set (end_ := Nat.min (start + abps) (length buf)).
  assert (Hs : fst (fold_left (windowStep buf) (seq start (end_ - start))
                              (0%Z, 0%nat)) = 0%Z).
  { apply window_fold_silent. intros j Hj. apply in_seq in Hj.
    apply byteAt_silent; [exact Hall|]. subst end_. lia. }
  destruct (fold_left (windowStep buf) (seq start (end_ - start)) (0%Z, 0%nat))
    as [sum count].
  cbn [fst] in Hs. subst sum.
  assert (Havg : (if (0 <? count)%nat
                  then inject_Z 0 / inject_Z (Z.of_nat count) else 0) == 0).
  { destruct (0 <? count)%nat; [|reflexivity]. unfold Qdiv.
    apply Qmult_0_l. }
  unfold Math_min. rewrite Havg. reflexivity.
Qed.

(** *** [Math.max(...waveform)] and [Math.min(...waveform)] *)

Lemma fold_max_upper (ws : list Q) (w : Q) :
  forall v, In v (w :: ws) -> v <= fold_left Math_max ws w.
Proof.
  revert w. induction ws as [|x ws IH]; intros w v Hv; cbn [fold_left].
  - destruct Hv as [<-|[]]. apply Qle_refl.
  - destruct Hv as [E|[E|Hv]].
    + subst v. apply Qle_trans with (Math_max w x); [apply Q.le_max_l|].
      apply IH. left. reflexivity.
    + subst v. apply Qle_trans with (Math_max w x); [apply Q.le_max_r|].
      apply IH. left. reflexivity.
    + apply IH. right. exact Hv.
Qed.

Lemma fold_min_lower (ws : list Q) (w : Q) :
  forall v, In v (w :: ws) -> fold_left Math_min ws w <= v.
Proof.
  revert w. induction ws as [|x ws IH]; intros w v Hv; cbn [fold_left].
  - destruct Hv as [<-|[]]. apply Qle_refl.
  - destruct Hv as [E|[E|Hv]].
    + subst v. apply Qle_trans with (Math_min w x); [|apply Q.le_min_l].
      apply IH. left. reflexivity.
    + subst v. apply Qle_trans with (Math_min w x); [|apply Q.le_min_r].
      apply IH. left. reflexivity.
    + apply IH. right. exact Hv.
Qed.

Lemma fold_max_in (ws : list Q) (w : Q) :
  In (fold_left Math_max ws w) (w :: ws).
Proof.
  revert w. induction ws as [|x ws IH]; intros w; cbn [fold_left].
  - left. reflexivity.
  - destruct (IH (Math_max w x)) as [H|H].
    + rewrite <- H. unfold Math_max, Qmax, GenericMinMax.gmax.
      destruct (w ?= x); [left | right; left | left]; reflexivity.
    + right. right. exact H.
Qed.

(** *** The normalisation passes *)

Lemma normalize_range (v min max : Q) :
  min <= v <= max -> 1 # 100 < max - min ->
  0 <= (v - min) / (max - min) <= 1.
Proof.
  intros [H1 H2] Hr. assert (Hpos : 0 < max - min) by lra. split.
  - apply Qle_shift_div_l; [exact Hpos | lra].
  - apply Qle_shift_div_r; [exact Hpos | lra].
Qed.

Lemma scale_by_max_range (v max : Q) :
  0 <= v <= max -> 2 # 100 <= max -> 0 <= v / max <= 1.
Proof.
  intros [H1 H2] Hm. assert (Hpos : 0 < max) by lra. split.
  - apply Qle_shift_div_l; [exact Hpos | lra].
  - apply Qle_shift_div_r; [exact Hpos | lra].
Qed.

Lemma Forall_map_range {A : Type} (f : A -> Q) (l : list A) :
  (forall x, In x l -> 0 <= f x <= 1) ->
  Forall (fun v => 0 <= v <= 1) (map f l).
Proof.
  intros H. apply List.Forall_forall. intros v Hv.
  apply in_map_iff in Hv. destruct Hv as (x & <- & Hx). apply H. exact Hx.
Qed.

Lemma map_const_zero {A : Type} (l : list A) :
  map (fun _ => 0) l = repeat 0 (length l).
Proof. induction l as [|x l IH]; cbn; [reflexivity | f_equal; exact IH]. Qed.

Lemma generateWaveformData_length (buf : list byte) (sampleCount : nat) :
  length (generateWaveformData buf sampleCount) = sampleCount.
Proof.
  unfold generateWaveformData.
  set (headerOffset := Nat.min 100 (length buf / 100)).
  set (abps := ((length buf - headerOffset) / sampleCount)%nat).
  assert (Hlen : length (map (windowSample buf headerOffset abps)
                             (seq 0 sampleCount)) = sampleCount).
  { rewrite length_map. apply length_seq. }
  destruct (map (windowSample buf headerOffset abps) (seq 0 sampleCount))
    as [|w ws]; [exact Hlen|].
  destruct (Qlt_bool _ 0.02); [rewrite length_map; exact Hlen|].
  destruct (Qlt_bool 0.01 _); rewrite !length_map; exact Hlen.
Qed.

Lemma generateWaveformData_range (buf : list byte) (sampleCount : nat) :
  Forall (fun v => 0 <= v <= 1) (generateWaveformData buf sampleCount).
Proof.
  unfold generateWaveformData.
  set (headerOffset := Nat.min 100 (length buf / 100)).
  set (abps := ((length buf - headerOffset) / sampleCount)%nat).
  assert (Hraw : forall v,
             In v (map (windowSample buf headerOffset abps) (seq 0 sampleCount)) ->
             0 <= v <= 1).
  { intros v Hv. apply in_map_iff in Hv. destruct Hv as (i & <- & _).
    apply windowSample_range. }
  destruct (map (windowSample buf headerOffset abps) (seq 0 sampleCount))
    as [|w ws]; [constructor|].
  pose proof (fold_max_upper ws w) as Hmax.
  pose proof (fold_min_lower ws w) as Hmin.
  set (max := fold_left Math_max ws w) in *.
  set (min := fold_left Math_min ws w) in *.
  destruct (Qlt_bool max 0.02) eqn:Equiet.
  - apply Forall_map_range. intros _ _. split; discriminate.
  - apply Qlt_bool_false_iff in Equiet.
    destruct (Qlt_bool 0.01 (max - min)) eqn:Erange.
    + apply Qlt_bool_iff in Erange. rewrite map_map.
      apply Forall_map_range. intros v Hv.
      apply applyDynamicScaling_range. apply normalize_range.
      * split; [apply Hmin | apply Hmax]; exact Hv.
      * exact Erange.
    + rewrite map_map. apply Forall_map_range. intros v Hv.
      apply applyDynamicScaling_range. apply scale_by_max_range.
      * split; [apply (Hraw v Hv) | apply Hmax; exact Hv].
      * exact Equiet.
Qed.

Lemma generateWaveformData_silent (buf : list byte) (sampleCount : nat) :
  Forall (fun b => b = x80) buf ->
  generateWaveformData buf sampleCount = repeat 0 sampleCount.
Proof.
  intros Hall. unfold generateWaveformData.
  set (headerOffset := Nat.min 100 (length buf / 100)).
  set (abps := ((length buf - headerOffset) / sampleCount)%nat).
  assert (Hlen : length (map (windowSample buf headerOffset abps)
                             (seq 0 sampleCount)) = sampleCount).
  { rewrite length_map. apply length_seq. }
  assert (Hraw : forall v,
             In v (map (windowSample buf headerOffset abps) (seq 0 sampleCount)) ->
             v == 0).
  { intros v Hv. apply in_map_iff in Hv. destruct Hv as (i & <- & _).
    apply windowSample_silent. exact Hall. }
  destruct (map (windowSample buf headerOffset abps) (seq 0 sampleCount))
    as [|w ws].
  - rewrite <- Hlen. reflexivity.
  - pose proof (Hraw _ (fold_max_in ws w)) as Hmax.
    destruct (Qlt_bool (fold_left Math_max ws w) 0.02) eqn:Equiet.
    + rewrite map_const_zero, Hlen. reflexivity.
    + apply Qlt_bool_false_iff in Equiet. rewrite Hmax in Equiet.
      exfalso. revert Equiet. apply Qlt_not_le. reflexivity.
Qed.

(** C5.  [generateWaveformData] returns exactly [sampleCount] values, all
    within [0, 1], for every buffer and every [sampleCount >= 1]; on a
    buffer in which every byte is 128 it returns the all-zero series. *)
Theorem C5_generateWaveformData (audioBuffer : list byte) (sampleCount : nat) :
  (1 <= sampleCount)%nat ->
  length (generateWaveformData audioBuffer sampleCount) = sampleCount /\
  Forall (fun v => 0 <= v <= 1) (generateWaveformData audioBuffer sampleCount) /\
  (Forall (fun b => b = x80) audioBuffer ->
   generateWaveformData audioBuffer sampleCount = repeat 0 sampleCount).
Proof.
  intros _. split; [apply generateWaveformData_length|].
  split; [apply generateWaveformData_range|].
  apply generateWaveformData_silent.
Qed.

Lemma C5_generateWaveformData_witness :
  generateWaveformData (repeat x80 1000) 5 = repeat 0 5%nat.
Proof.
  assert (H1 : (1 <= 5)%nat) by lia.
  destruct (C5_generateWaveformData (repeat x80 1000) 5 H1) as (_ & _ & H).
  apply H. apply List.Forall_forall. intros b Hb. apply repeat_spec in Hb. exact Hb.
Defined.

End WaveformDataFacts.

(** ** Tempo detection *)

Section TempoFacts.
Import JS Waveform Inputs.

(** One turn of the lag loop keeps the best lag or moves it to the
    current, non-zero, lag. *)
Lemma lagStep_fst (onsets : list Q) (sps : Q) (best : nat * Q) (lag : nat) :
  fst (lagStep onsets sps best lag) = fst best \/
  (fst (lagStep onsets sps best lag) = lag /\ lag <> 0%nat).
Proof.
  unfold lagStep. destruct best as [bestLag bestCorrelation].
  destruct (correlationAt onsets lag) as [correlation count].
  destruct (0 <? count)%nat; [|left; reflexivity].
  destruct lag as [|lag']; [left; reflexivity|].
  destruct (Qlt_bool _ _); [right | left; reflexivity].
  split; [reflexivity | discriminate].
Qed.

Lemma lagLoop_fst (onsets : list Q) (sps : Q) (lo hi : nat)
    (lags : list nat) (best : nat * Q) :
  (forall lag, In lag lags -> (lo <= lag <= hi)%nat) ->
  (fst best = 0%nat \/ (1 <= fst best /\ lo <= fst best <= hi)%nat) ->
  let r := lagLoop onsets sps lags best in
  fst r = 0%nat \/ (1 <= fst r /\ lo <= fst r <= hi)%nat.
Proof.
  revert best. induction lags as [|lag rest IH]; intros best Hlags Hbest;
    cbn [lagLoop].
  - exact Hbest.
  - destruct (Qlt_bool _ _); [|exact Hbest].
    apply IH.
    + intros l Hl. apply Hlags. right. exact Hl.
    + destruct (lagStep_fst onsets sps best lag) as [E|[E Hnz]]; rewrite E.
      * exact Hbest.
      * right. specialize (Hlags lag (or_introl eq_refl)). lia.
Qed.

Lemma inject_Z_of_nat_pos (n : nat) : (1 <= n)%nat -> 1 <= inject_Z (Z.of_nat n).
Proof.
  intros H. change 1 with (inject_Z 1). rewrite <- Zle_Qle. lia.
Qed.

(** What the code guarantees in general: the result is 0 or an integer
    between 60 and 360.  The lower search bound [minLag] is rounded down,
    so lags shorter than the one of 180 BPM are candidates. *)
Lemma detectBPM_bounds (waveform : list Q) (durationSeconds : Q) :
  detectBPM waveform durationSeconds = 0%Z \/
  (60 <= detectBPM waveform durationSeconds <= 360)%Z.
Proof.
  unfold detectBPM.
  destruct ((length waveform <? 100)%nat || Qlt_bool durationSeconds 10) eqn:G;
    [left; reflexivity|].
  apply orb_false_iff in G. destruct G as [GL GD].
  apply Nat.ltb_ge in GL. apply Qlt_bool_false_iff in GD.
  set (sps := inject_Z (Z.of_nat (length waveform)) / durationSeconds).
  assert (Hsps : 0 < sps).
  { unfold sps. apply Qlt_shift_div_l; [lra|]. rewrite Qmult_0_l.
    change 0 with (inject_Z 0). rewrite <- Zlt_Qlt. lia. }
  set (minLag := Z.to_nat (Math_floor (60 / 180 * sps))).
  set (maxLag := Z.to_nat (Math_floor (60 / 60 * sps))).
  set (windowSize := Z.to_nat (Z.max 3 (Math_floor (sps / 20)))).
  set (envelope := map (envelopeAt waveform windowSize) (seq 0 (length waveform))).
  set (onsets := map (onsetAt envelope) (seq 1 (length envelope - 1))).
  pose proof (lagLoop_fst onsets sps minLag maxLag
                (seq minLag (S maxLag - minLag)) (0%nat, 0)) as Hloop.
  cbv zeta in Hloop.
  destruct (lagLoop onsets sps (seq minLag (S maxLag - minLag)) (0%nat, 0))
    as [bestLag bestCorrelation].
  cbn [fst] in Hloop.
  destruct Hloop as [E0|(H1 & Hlo & Hhi)].
  { intros lag Hlag. apply in_seq in Hlag. lia. }
  { left. reflexivity. }
  { subst bestLag. left. reflexivity. }
  destruct bestLag as [|k]; [left; reflexivity|]. right.
  set (lag := inject_Z (Z.of_nat (S k))).
  assert (Hlag1 : 1 <= lag) by (apply inject_Z_of_nat_pos; exact H1).
  assert (Hmax : lag <= sps).
  { assert (Hf : (0 <= Math_floor (60 / 60 * sps))%Z).
    { unfold Math_floor. change 0%Z with (Qfloor 0).
      apply Qfloor_resp_le. assert (60 / 60 == 1) by reflexivity. nra. }
    apply Qle_trans with (inject_Z (Math_floor (60 / 60 * sps))).
    - unfold lag. rewrite <- Zle_Qle. subst maxLag. lia.
    - unfold Math_floor.
      apply Qle_trans with (60 / 60 * sps); [apply Qfloor_le|].
      assert (E : 60 / 60 == 1) by reflexivity. rewrite E. lra. }
  assert (Hmin : sps < 6 * lag).
  { assert (Hlt : 60 / 180 * sps < inject_Z (Math_floor (60 / 180 * sps) + 1)%Z)
      by apply Qlt_floor.
    assert (Hle : inject_Z (Math_floor (60 / 180 * sps) + 1) <= lag + 1).
    { unfold lag. change (1 : Q) with (inject_Z 1). rewrite <- inject_Z_plus.
      rewrite <- Zle_Qle. subst minLag. lia. }
    assert (E : 60 / 180 * sps == sps * (1 # 3)) by (field).
    set (f := inject_Z (Math_floor (60 / 180 * sps) + 1)) in *.
    rewrite E in Hlt. lra. }
  assert (Hbpm : 60 <= 60 * sps / lag /\ 60 * sps / lag < 360).
  { split.
    - apply Qle_shift_div_l; lra.
    - apply Qlt_shift_div_r; lra. }
  unfold Math_round. destruct Hbpm as [Hb1 Hb2].
  set (bpm := 60 * sps / lag) in *. split.
  - change 60%Z with (Qfloor 60). apply Qfloor_resp_le. lra.
  - assert (Hfl : (Qfloor (bpm + (1 # 2)) <= Qfloor (360 + (1 # 2)))%Z)
      by (apply Qfloor_resp_le; lra).
    exact Hfl.
Qed.

(** C6 fails on the code: on a series of 100 samples with two adjacent
    full-scale samples and a duration of 20 seconds (5 samples per second),
    [minLag] is [floor(5/3) = 1], the lag 1 is the only one with a positive
    correlation, and the result is [round(300 / 1) = 300], above 180. *)
Theorem C6_detectBPM_above_180 :
  detectBPM twoSpikes 20 = 300%Z /\
  ~ (detectBPM twoSpikes 20 = 0%Z \/ (60 <= detectBPM twoSpikes 20 <= 180)%Z).
Proof.
  assert (H : detectBPM twoSpikes 20 = 300%Z) by (vm_compute; reflexivity).
  split; [exact H|]. rewrite H. intros [E|[_ E]]; [discriminate | lia].
Qed.

(** The same at the scale of a request with [samples=2000] for a track of
    180 seconds: [minLag] is [floor(3.7) = 3] and the result is
    [round(666.67 / 3) = 222]. *)
Example detectBPM_fourSpikes : detectBPM fourSpikes 180 = 222%Z.
Proof. vm_compute. reflexivity. Qed.

(** Below 100 samples, or below 10 seconds, the result is the sentinel. *)
Lemma detectBPM_too_short (waveform : list Q) (durationSeconds : Q) :
  (length waveform < 100)%nat \/ durationSeconds < 10 ->
  detectBPM waveform durationSeconds = 0%Z.
Proof.
  intros H. unfold detectBPM.
  assert (G : (length waveform <? 100)%nat || Qlt_bool durationSeconds 10 = true).
  { apply orb_true_iff. destruct H as [H|H].
    - left. apply Nat.ltb_lt. exact H.
    - right. apply Qlt_bool_iff. exact H. }
  rewrite G. reflexivity.
Qed.

End TempoFacts.

(** ** The synthetic fallback *)

Section SyntheticFacts.
Import JS Waveform Inputs.

(** The platform's sine is any function of the number it is given: it does
    not see which fraction represents that number. *)
Variable Math_sin : Q -> Q.
Variable Math_PI : Q.
Hypothesis Math_sin_proper : forall x y, x == y -> Math_sin x == Math_sin y.

Lemma clamp_sample_range (x : Q) :
  0.08 <= Math_max 0.08 (Math_min 1 (Math_abs x)) <= 1.
Proof. apply Math_max_min_clamp. discriminate. Qed.

(** The fractional part computed by [random] lies in [0, 1). *)
Lemma random_range (seed x : Q) :
  0 <= random Math_sin seed x < 1.
Proof.
  unfold random, Math_floor.
  set (val := Math_sin (x * 12.9898 + seed * 78.233) * 43758.5453).
  pose proof (Qfloor_le val) as H1. pose proof (Qlt_floor val) as H2.
  rewrite inject_Z_plus in H2. change (inject_Z 1) with 1 in H2.
  split; lra.
Qed.

(** What the code guarantees: every sample lies in [0.08, 1.1].  The clamp
    to [0.08, 1] comes before the section gain of 1.1. *)
Lemma syntheticSample_range (samples : nat) (seed : Q) (i : nat) :
  0.08 <= syntheticSample Math_sin Math_PI samples seed i <= 1.1.
Proof.
  unfold syntheticSample.
  set (t := inject_Z (Z.of_nat i) / inject_Z (Z.of_nat samples)).
  set (raw := _ + _ + _ + _ + _).
  pose proof (clamp_sample_range raw) as Hv.
  set (v := Math_max 0.08 (Math_min 1 (Math_abs raw))) in *.
  pose proof (random_range seed (inject_Z (Z.of_nat i) * 0.1)) as Hb.
  set (bp := random Math_sin seed (inject_Z (Z.of_nat i) * 0.1)) in *.
  assert (Hbeat : 0.08 <= (if Qlt_bool 0.85 bp
                           then Math_min 1 (v * (1.2 + bp * 0.5)) else v) <= 1).
  { destruct (Qlt_bool 0.85 bp) eqn:E; [|exact Hv].
    apply Qlt_bool_iff in E. unfold Math_min. split.
    - apply Q.min_glb; [discriminate | nra].
    - apply Q.le_min_l. }
  set (v' := if Qlt_bool 0.85 bp then _ else v) in *.
  destruct ((_ =? 2)%Z || (_ =? 3)%Z); lra.
Qed.

Lemma generateSyntheticWaveform_range (samples : nat) (duration : Q)
    (videoId : option string) :
  Forall (fun v => 0.08 <= v <= 1.1)
         (generateSyntheticWaveform Math_sin Math_PI samples duration videoId).
Proof.
  unfold generateSyntheticWaveform. apply List.Forall_forall. intros v Hv.
  apply in_map_iff in Hv. destruct Hv as (i & <- & _).
  apply syntheticSample_range.
Qed.

(** [random] when the sine at its argument is known to an interval on
    which the floor is [n]. *)
Lemma random_enclosure (seed x arg lo hi : Q) (n : Z) :
  x * 12.9898 + seed * 78.233 == arg ->
  lo <= Math_sin arg <= hi ->
  inject_Z n <= lo * 43758.5453 -> hi * 43758.5453 < inject_Z (n + 1) ->
  lo * 43758.5453 - inject_Z n <= random Math_sin seed x.
Proof.
  intros Harg [Hlo Hhi] Hn Hn1. unfold random, Math_floor.
  pose proof (Math_sin_proper _ _ Harg) as Hs.
  rewrite <- Hs in Hlo, Hhi.
  set (s := Math_sin (x * 12.9898 + seed * 78.233)) in *.
  assert (E : Qfloor (s * 43758.5453) = n).
  { apply Qfloor_unique; lra. }
  rewrite E. lra.
Qed.

(** C4 fails on the code: with the sine known to six decimals at the six
    arguments involved, sample 166 of
    [generateSyntheticWaveform(200, 180, "abc123")] is above 1.  The beat
    peak lifts the clamped value to at least 0.96 and the section gain of
    1.1, applied after the clamp, takes it past 1. *)
Theorem C4_synthetic_sample_above_1 :
  0.50 <= Math_sin (0.83 * Math_PI) ->
  -0.36 <= Math_sin 3543.35 ->
  0.84 <= Math_sin 2546.828 ->
  0.93 <= Math_sin 1226.432 ->
  0.163279 <= Math_sin 27417659.4288 <= 0.163280 ->
  0.837205 <= Math_sin 27415718.75268 <= 0.837206 ->
  exists v,
    nth_error
      (generateSyntheticWaveform Math_sin Math_PI 200 180 (Some "abc123"%string))
      166 = Some v /\
    1 < v /\ ~ (0.08 <= v <= 1).
Proof.
  intros H0 H1 H2 H3 H4 H5.
  exists (syntheticSample Math_sin Math_PI 200
            (seedOf 180 (Some "abc123"%string)) 166).
  split; [reflexivity|].
  assert (Hgoal : 1 < syntheticSample Math_sin Math_PI 200
                        (seedOf 180 (Some "abc123"%string)) 166);
    [|split; [exact Hgoal | lra]].
  unfold syntheticSample.
  set (seed := seedOf 180 (Some "abc123"%string)).
  set (t := inject_Z (Z.of_nat 166) / inject_Z (Z.of_nat 200)).
  assert (Et : t == 0.83) by reflexivity.
  assert (Es : seed == 350434) by reflexivity.
  replace (Qlt_bool t 0.05) with false by reflexivity.
  replace (Qlt_bool 0.95 t) with false by reflexivity.
  replace (Z.rem (Math_floor (t * 8)) 4) with 2%Z by reflexivity.
  cbn [Z.eqb Pos.eqb orb].
  assert (A0 : Math_sin (t * Math_PI) == Math_sin (0.83 * Math_PI)).
  { apply Math_sin_proper. rewrite Et. reflexivity. }
  assert (A1 : Math_sin (t * 47 + seed * 0.01) == Math_sin 3543.35).
  { apply Math_sin_proper. rewrite Et, Es. reflexivity. }
  assert (A2 : Math_sin (t * 113 + seed * 0.007) == Math_sin 2546.828).
  { apply Math_sin_proper. rewrite Et, Es. reflexivity. }
  assert (A3 : Math_sin (t * 211 + seed * 0.003) == Math_sin 1226.432).
  { apply Math_sin_proper. rewrite Et, Es. reflexivity. }
  assert (R : 0.85 <= random Math_sin seed (inject_Z (Z.of_nat 166))).
  { eapply Qle_trans;
      [|apply (random_enclosure seed _ 27417659.4288 0.163279 0.163280 7144)].
    - vm_compute. discriminate.
    - rewrite Es. reflexivity.
    - exact H4.
    - vm_compute. discriminate.
    - reflexivity. }
  assert (B : 0.87 <= random Math_sin seed (inject_Z (Z.of_nat 166) * 0.1)).
  { eapply Qle_trans;
      [|apply (random_enclosure seed _ 27415718.75268 0.837205 0.837206 36634)].
    - vm_compute. discriminate.
    - rewrite Es. reflexivity.
    - exact H5.
    - vm_compute. discriminate.
    - reflexivity. }
  pose proof (random_range seed (inject_Z (Z.of_nat 166))) as R'.
  pose proof (random_range seed (inject_Z (Z.of_nat 166) * 0.1)) as B'.
  set (rnd := random Math_sin seed (inject_Z (Z.of_nat 166))) in *.
  set (bp := random Math_sin seed (inject_Z (Z.of_nat 166) * 0.1)) in *.
  assert (Ebp : Qlt_bool 0.85 bp = true) by (apply Qlt_bool_iff; lra).
  rewrite Ebp.
  set (s0 := Math_sin (t * Math_PI)) in *.
  set (s1 := Math_sin (t * 47 + seed * 0.01)) in *.
  set (s2 := Math_sin (t * 113 + seed * 0.007)) in *.
  set (s3 := Math_sin (t * 211 + seed * 0.003)) in *.
  set (raw := 0.35 + 0.15 * s0 + s1 * 0.12 + s2 * 0.08 + s3 * 0.06
              + (rnd - 0.5) * 0.25).
  assert (Hraw : 0.59 <= raw) by (unfold raw; lra).
  assert (Hv : 0.59 <= Math_max 0.08 (Math_min 1 (Math_abs raw))).
  { unfold Math_max, Math_min, Math_abs.
    eapply Qle_trans; [|apply Q.le_max_r].
    apply Q.min_glb; [discriminate|].
    eapply Qle_trans; [exact Hraw | apply Qle_Qabs]. }
  set (v := Math_max 0.08 (Math_min 1 (Math_abs raw))) in *.
  assert (Hpeak : 0.96 <= Math_min 1 (v * (1.2 + bp * 0.5))).
  { unfold Math_min. apply Q.min_glb; [discriminate | nra]. }
  lra.
Qed.
(** *** Determinism *)

Lemma seedLoop_proper (chars : list ascii) (i : nat) (seed seed' : Q) :
  seed == seed' -> seedLoop chars i seed == seedLoop chars i seed'.
Proof.
  revert i seed seed'. induction chars as [|c rest IH]; intros i s s' H;
    cbn [seedLoop].
  - exact H.
  - apply IH. rewrite H. reflexivity.
Qed.

Lemma seedOf_proper (duration duration' : Q) (videoId : option string) :
  duration == duration' -> seedOf duration videoId == seedOf duration' videoId.
Proof.
  intros H. unfold seedOf. destruct videoId as [s|].
  - apply seedLoop_proper. rewrite H. reflexivity.
  - rewrite H. reflexivity.
Qed.

Lemma random_proper (seed seed' x : Q) :
  seed == seed' -> random Math_sin seed x == random Math_sin seed' x.
Proof.
  intros H. unfold random, Math_floor.
  assert (Hs : Math_sin (x * 12.9898 + seed * 78.233)
               == Math_sin (x * 12.9898 + seed' * 78.233)).
  { apply Math_sin_proper. rewrite H. reflexivity. }
  set (s := Math_sin (x * 12.9898 + seed * 78.233)) in *.
  set (s' := Math_sin (x * 12.9898 + seed' * 78.233)) in *.
  assert (Hf : Qfloor (s * 43758.5453) = Qfloor (s' * 43758.5453)).
  { apply Qfloor_comp. rewrite Hs. reflexivity. }
  rewrite Hf, Hs. reflexivity.
Qed.

(** A sample depends on the seed as a number only, not on the fraction
    that represents it. *)
Lemma syntheticSample_proper (samples : nat) (seed seed' : Q) (i : nat) :
  seed == seed' ->
  syntheticSample Math_sin Math_PI samples seed i
    == syntheticSample Math_sin Math_PI samples seed' i.
Proof.
  intros H. unfold syntheticSample.
  set (t := inject_Z (Z.of_nat i) / inject_Z (Z.of_nat samples)).
  set (base := if Qlt_bool t 0.05 then _ else _).
  assert (H1 : Math_sin (t * 47 + seed * 0.01)
               == Math_sin (t * 47 + seed' * 0.01))
    by (apply Math_sin_proper; rewrite H; reflexivity).
  assert (H2 : Math_sin (t * 113 + seed * 0.007)
               == Math_sin (t * 113 + seed' * 0.007))
    by (apply Math_sin_proper; rewrite H; reflexivity).
  assert (H3 : Math_sin (t * 211 + seed * 0.003)
               == Math_sin (t * 211 + seed' * 0.003))
    by (apply Math_sin_proper; rewrite H; reflexivity).
  pose proof (random_proper seed seed' (inject_Z (Z.of_nat i)) H) as Hr.
  pose proof (random_proper seed seed' (inject_Z (Z.of_nat i) * 0.1) H) as Hb.
  set (raw := base + _ + _ + _ + _).
  set (raw' := base + _ + _ + _ + _).
  assert (Hraw : raw == raw').
  { unfold raw, raw'. rewrite H1, H2, H3, Hr. reflexivity. }
  assert (Hv : Math_max 0.08 (Math_min 1 (Math_abs raw))
               == Math_max 0.08 (Math_min 1 (Math_abs raw'))).
  { unfold Math_max, Math_min, Math_abs. rewrite Hraw. reflexivity. }
  set (v := Math_max 0.08 (Math_min 1 (Math_abs raw))) in *.
  set (v' := Math_max 0.08 (Math_min 1 (Math_abs raw'))) in *.
  set (bp := random Math_sin seed (inject_Z (Z.of_nat i) * 0.1)) in *.
  set (bp' := random Math_sin seed' (inject_Z (Z.of_nat i) * 0.1)) in *.
  assert (Hc : Qlt_bool 0.85 bp = Qlt_bool 0.85 bp').
  { unfold Qlt_bool. rewrite Hb. reflexivity. }
  rewrite <- Hc.
  assert (Hbeat : (if Qlt_bool 0.85 bp
                   then Math_min 1 (v * (1.2 + bp * 0.5)) else v)
                  == (if Qlt_bool 0.85 bp
                      then Math_min 1 (v' * (1.2 + bp' * 0.5)) else v')).
  { destruct (Qlt_bool 0.85 bp); [|exact Hv].
    unfold Math_min. rewrite Hv, Hb. reflexivity. }
  destruct ((_ =? 2)%Z || (_ =? 3)%Z); [rewrite Hbeat|]; auto with qarith.
Qed.

(** C9.  The synthetic generator is deterministic: two calls with the same
    sample count, the same duration and the same track id return the same
    sequence, element for element; so do the two calls
    [generateSyntheticWaveform(200, 180, "abc123")]. *)
Theorem C9_synthetic_deterministic
    (samples samples' : nat) (duration duration' : Q)
    (videoId videoId' : option string) :
  samples = samples' -> duration == duration' -> videoId = videoId' ->
  Forall2 Qeq
    (generateSyntheticWaveform Math_sin Math_PI samples duration videoId)
    (generateSyntheticWaveform Math_sin Math_PI samples' duration' videoId') /\
  (duration = duration' ->
   generateSyntheticWaveform Math_sin Math_PI samples duration videoId
     = generateSyntheticWaveform Math_sin Math_PI samples' duration' videoId').
Proof.
  intros <- Hd <-. split.
  - unfold generateSyntheticWaveform.
    pose proof (seedOf_proper duration duration' videoId Hd) as Hs.
    set (seed := seedOf duration videoId) in *.
    set (seed' := seedOf duration' videoId) in *.
    induction (seq 0 samples) as [|i l IH]; cbn [map]; constructor.
    + apply syntheticSample_proper. exact Hs.
    + exact IH.
  - intros <-. reflexivity.
Qed.

End SyntheticFacts.

Section SyntheticWitnesses.
Import JS Waveform Inputs.

Lemma lookupSine_proper (table : list (Q * Q)) (x y : Q) :
  x == y -> lookupSine table x == lookupSine table y.
Proof.
  intros H. induction table as [|[a s] rest IH]; cbn [lookupSine].
  - reflexivity.
  - assert (E : Qeq_bool x a = Qeq_bool y a) by (rewrite H; reflexivity).
    rewrite E. destruct (Qeq_bool y a); [reflexivity | exact IH].
Qed.

Lemma tableSin_proper (x y : Q) : x == y -> tableSin x == tableSin y.
Proof. apply lookupSine_proper. Qed.

Lemma C4_synthetic_sample_above_1_witness :
  exists v,
    nth_error
      (generateSyntheticWaveform tableSin piApprox 200 180 (Some "abc123"%string))
      166 = Some v /\
    1 < v /\ ~ (0.08 <= v <= 1).
Proof.
  apply (C4_synthetic_sample_above_1 tableSin piApprox tableSin_proper);
    vm_compute; try split; discriminate.
Defined.

Lemma C9_synthetic_deterministic_witness :
  Forall2 Qeq
    (generateSyntheticWaveform tableSin piApprox 200 180 (Some "abc123"%string))
    (generateSyntheticWaveform tableSin piApprox 200 (360 / 2)
                               (Some "abc123"%string)).
Proof.
  apply (C9_synthetic_deterministic tableSin piApprox tableSin_proper
           200 200 180 (360 / 2) (Some "abc123"%string) (Some "abc123"%string));
    reflexivity.
Defined.

End SyntheticWitnesses.

(** ** More on the crossfader law *)

Section CrossfaderMore.
Import JS Crossfader Views.

Lemma clamp_mono (lo hi x y : Q) :
  x <= y -> Math_max lo (Math_min hi x) <= Math_max lo (Math_min hi y).
Proof.
  intros H. unfold Math_max, Math_min.
  apply Q.max_le_compat_l. apply Q.min_le_compat_l. exact H.
Qed.

Lemma clamp_below (lo hi x : Q) :
  lo <= hi -> x <= lo -> Math_max lo (Math_min hi x) == lo.
Proof.
  intros Hlh Hx. unfold Math_max, Math_min. apply Q.max_l.
  eapply Qle_trans; [apply Q.le_min_r | exact Hx].
Qed.

Lemma clamp_above (lo hi x : Q) :
  lo <= hi -> hi <= x -> Math_max lo (Math_min hi x) == hi.
Proof.
  intros Hlh Hx. unfold Math_max, Math_min.
  rewrite (Q.min_l hi x Hx). apply Q.max_r. exact Hlh.
Qed.

Lemma Math_round_proper (x y : Q) : x == y -> Math_round x = Math_round y.
Proof. intros H. unfold Math_round. apply Qfloor_comp. rewrite H. reflexivity. Qed.

Lemma Math_round_mono (x y : Q) : x <= y -> (Math_round x <= Math_round y)%Z.
Proof. intros H. unfold Math_round. apply Qfloor_resp_le. lra. Qed.

Lemma Math_round_Z (z : Z) : Math_round (inject_Z z) = z.
Proof.
  unfold Math_round. apply Qfloor_unique.
  - lra.
  - rewrite inject_Z_plus. change (inject_Z 1) with 1. lra.
Qed.

(** The law in closed form, for every input: with [c] the clamped position,
    the volumes are [min(1, 2(1 - c))] and [min(1, 2c)], their sum is at
    least 1, and each opacity is its volume over that sum. *)
Lemma applyCurve_closed_form (value : Q) (curve : CrossfaderCurve) :
  let c := Math_max 0 (Math_min 1 value) in
  let out := applyCurve value curve in
  deckAVolume out == (if Qle_bool c (1 # 2) then 1 else 2 * (1 - c)) /\
  deckBVolume out == (if Qle_bool c (1 # 2) then 2 * c else 1) /\
  1 <= deckAVolume out + deckBVolume out /\
  deckAOpacity out == deckAVolume out / (deckAVolume out + deckBVolume out) /\
  deckBOpacity out == deckBVolume out / (deckAVolume out + deckBVolume out).
Proof.
  intros c out.
  assert (Hc : 0 <= c <= 1) by (apply Math_max_min_clamp; discriminate).
  destruct Hc as [Hc0 Hc1].
  assert (HA : deckAVolume out == (if Qle_bool c (1 # 2) then 1 else 2 * (1 - c))).
  { subst out. unfold applyCurve, applyCenterFullCurve. cbn [deckAVolume].
    fold c. destruct (Qle_bool c (1 # 2)); [reflexivity | ring]. }
  assert (HB : deckBVolume out == (if Qle_bool c (1 # 2) then 2 * c else 1)).
  { subst out. unfold applyCurve, applyCenterFullCurve. cbn [deckBVolume].
    fold c. destruct (Qle_bool c (1 # 2)); [ring | reflexivity]. }
  assert (Htot : 1 <= deckAVolume out + deckBVolume out).
  { rewrite HA, HB. destruct (Qle_bool c (1 # 2)); lra. }
  destruct (applyCenterFullCurve_opacity c) as [Hpos _].
  change (applyCenterFullCurve c) with out in Hpos. cbv zeta in Hpos.
  assert (H0 : 0 < deckAVolume out + deckBVolume out) by lra.
  destruct (Hpos H0) as [HoA HoB].
  repeat split; assumption.
Qed.

(** X1.  [applyCurve] never fails on an out-of-range position, it saturates:
    at or below 0 deck A is full (volume 1, opacity 1) and deck B silent and
    invisible; at or above 1 the reverse. *)
Theorem applyCurve_saturates (value : Q) (curve : CrossfaderCurve) :
  let out := applyCurve value curve in
  (value <= 0 ->
   deckAVolume out == 1 /\ deckBVolume out == 0 /\
   deckAOpacity out == 1 /\ deckBOpacity out == 0) /\
  (1 <= value ->
   deckAVolume out == 0 /\ deckBVolume out == 1 /\
   deckAOpacity out == 0 /\ deckBOpacity out == 1).
Proof.
  intros out.
  destruct (applyCurve_closed_form value curve) as (HA & HB & _ & HoA & HoB).
  fold out in HA, HB, HoA, HoB.
  assert (H01 : 0 <= 1) by discriminate.
  set (c := Math_max 0 (Math_min 1 value)) in *.
  split; intros Hv.
  - pose proof (clamp_below 0 1 value H01 Hv) as Hc. fold c in Hc.
    assert (E : Qle_bool c (1 # 2) = true) by (apply Qle_bool_iff; lra).
    rewrite E in HA, HB.
    assert (HB' : deckBVolume out == 0) by lra.
    rewrite HA, HB' in HoA, HoB.
    repeat split; assumption.
  - pose proof (clamp_above 0 1 value H01 Hv) as Hc. fold c in Hc.
    assert (E : Qle_bool c (1 # 2) = false) by (apply Qle_bool_false_iff; lra).
    rewrite E in HA, HB.
    assert (HA' : deckAVolume out == 0) by lra.
    rewrite HA', HB in HoA, HoB.
    repeat split; assumption.
Qed.

Lemma applyCurve_saturates_witness :
  deckAVolume (applyCurve (-3) cut) == 1 /\
  deckBOpacity (applyCurve 7 linear) == 1.
Proof.
  split.
  - apply (proj1 (applyCurve_saturates (-3) cut)). discriminate.
  - apply (proj2 (applyCurve_saturates 7 linear)). discriminate.
Defined.

(** X2.  For every input, in range or not: the four outputs lie in [0, 1],
    the opacities sum to 1 and at least one deck is at full volume. *)
Theorem applyCurve_outputs_total (value : Q) (curve : CrossfaderCurve) :
  let out := applyCurve value curve in
  0 <= deckAVolume out <= 1 /\ 0 <= deckBVolume out <= 1 /\
  0 <= deckAOpacity out <= 1 /\ 0 <= deckBOpacity out <= 1 /\
  deckAOpacity out + deckBOpacity out == 1 /\
  (deckAVolume out == 1 \/ deckBVolume out == 1).
Proof.
  intros out.
  destruct (applyCurve_closed_form value curve) as (HA & HB & Htot & HoA & HoB).
  fold out in HA, HB, Htot, HoA, HoB.
  assert (Hc : 0 <= Math_max 0 (Math_min 1 value) <= 1)
    by (apply Math_max_min_clamp; discriminate).
  set (c := Math_max 0 (Math_min 1 value)) in *.
  assert (Ha : 0 <= deckAVolume out <= 1).
  { rewrite HA. destruct (Qle_bool c (1 # 2)) eqn:E.
    - lra.
    - apply Qle_bool_false_iff in E. lra. }
  assert (Hb : 0 <= deckBVolume out <= 1).
  { rewrite HB. destruct (Qle_bool c (1 # 2)) eqn:E.
    - apply Qle_bool_iff in E. lra.
    - lra. }
  assert (Hone : deckAVolume out == 1 \/ deckBVolume out == 1).
  { destruct (Qle_bool c (1 # 2)); [left; exact HA | right; exact HB]. }
  clearbody out. clear HA HB.
  set (a := deckAVolume out) in *. set (b := deckBVolume out) in *.
  assert (Hpos : 0 < a + b) by lra.
  repeat split; try tauto; try lra.
  - rewrite HoA. apply Qle_shift_div_l; lra.
  - rewrite HoA. apply Qle_shift_div_r; lra.
  - rewrite HoB. apply Qle_shift_div_l; lra.
  - rewrite HoB. apply Qle_shift_div_r; lra.
  - rewrite HoA, HoB. field. lra.
Qed.

Lemma clamp_mirror (value : Q) :
  Math_max 0 (Math_min 1 (1 - value)) == 1 - Math_max 0 (Math_min 1 value).
Proof.
  assert (H01 : 0 <= 1) by discriminate.
  destruct (Qlt_le_dec value 0) as [Hneg|Hnn].
  - rewrite (clamp_below 0 1 value H01) by lra.
    rewrite (clamp_above 0 1 (1 - value) H01) by lra. reflexivity.
  - destruct (Qlt_le_dec 1 value) as [Hbig|Hle].
    + rewrite (clamp_above 0 1 value H01) by lra.
      rewrite (clamp_below 0 1 (1 - value) H01) by lra. reflexivity.
    + rewrite (Math_max_min_id 0 1 value) by (split; assumption).
      rewrite (Math_max_min_id 0 1 (1 - value)) by (split; lra). reflexivity.
Qed.

(** X3.  The law is symmetric in the two decks: mirroring the position
    around the centre swaps the outputs of deck A and deck B. *)
Theorem applyCurve_mirror (value : Q) (curve : CrossfaderCurve) :
  let out := applyCurve value curve in
  let mirrored := applyCurve (1 - value) curve in
  deckAVolume mirrored == deckBVolume out /\
  deckBVolume mirrored == deckAVolume out /\
  deckAOpacity mirrored == deckBOpacity out /\
  deckBOpacity mirrored == deckAOpacity out.
Proof.
  intros out mirrored.
  destruct (applyCurve_closed_form value curve) as (HA & HB & Htot & HoA & HoB).
  destruct (applyCurve_closed_form (1 - value) curve)
    as (HA' & HB' & Htot' & HoA' & HoB').
  fold out in HA, HB, Htot, HoA, HoB.
  fold mirrored in HA', HB', Htot', HoA', HoB'.
  pose proof (clamp_mirror value) as Hm.
  assert (Hc : 0 <= Math_max 0 (Math_min 1 value) <= 1)
    by (apply Math_max_min_clamp; discriminate).
  set (c := Math_max 0 (Math_min 1 value)) in *.
  set (c' := Math_max 0 (Math_min 1 (1 - value))) in *.
  assert (HvA : deckAVolume mirrored == deckBVolume out).
  { rewrite HA', HB.
    destruct (Qle_bool c' (1 # 2)) eqn:E'; destruct (Qle_bool c (1 # 2)) eqn:E;
      try apply Qle_bool_iff in E'; try apply Qle_bool_iff in E;
      try apply Qle_bool_false_iff in E'; try apply Qle_bool_false_iff in E;
      rewrite Hm in *; lra. }
  assert (HvB : deckBVolume mirrored == deckAVolume out).
  { rewrite HB', HA.
    destruct (Qle_bool c' (1 # 2)) eqn:E'; destruct (Qle_bool c (1 # 2)) eqn:E;
      try apply Qle_bool_iff in E'; try apply Qle_bool_iff in E;
      try apply Qle_bool_false_iff in E'; try apply Qle_bool_false_iff in E;
      rewrite Hm in *; lra. }
  repeat split; try assumption.
  - rewrite HoA', HoB, HvA, HvB.
    rewrite (Qplus_comm (deckBVolume out)). reflexivity.
  - rewrite HoB', HoA, HvA, HvB.
    rewrite (Qplus_comm (deckBVolume out)). reflexivity.
Qed.

Lemma ratio_mono (a b a' b' : Q) :
  0 <= a' <= a -> 0 <= b <= b' -> 0 < a + b -> 0 < a' + b' ->
  a' / (a' + b') <= a / (a + b).
Proof.
  intros [Ha0 Ha] [Hb0 Hb] Hp Hp'.
  apply Qle_shift_div_r; [exact Hp'|].
  assert (E : a / (a + b) * (a' + b') == (a * (a' + b')) / (a + b))
    by (field; lra).
  rewrite E. apply Qle_shift_div_l; [exact Hp|]. nra.
Qed.

(** X4.  Moving the crossfader towards deck B never raises deck A and never
    lowers deck B, in volume and in opacity. *)
Theorem applyCurve_monotone (p q : Q) (curve : CrossfaderCurve) :
  p <= q ->
  deckAVolume (applyCurve q curve) <= deckAVolume (applyCurve p curve) /\
  deckBVolume (applyCurve p curve) <= deckBVolume (applyCurve q curve) /\
  deckAOpacity (applyCurve q curve) <= deckAOpacity (applyCurve p curve) /\
  deckBOpacity (applyCurve p curve) <= deckBOpacity (applyCurve q curve).
Proof.
  intros Hpq.
  destruct (applyCurve_closed_form p curve) as (HA & HB & Htot & HoA & HoB).
  destruct (applyCurve_closed_form q curve) as (HA' & HB' & Htot' & HoA' & HoB').
  cbv zeta in *.
  pose proof (clamp_mono 0 1 p q Hpq) as Hm.
  assert (Hc : 0 <= Math_max 0 (Math_min 1 p) <= 1)
    by (apply Math_max_min_clamp; discriminate).
  assert (Hc' : 0 <= Math_max 0 (Math_min 1 q) <= 1)
    by (apply Math_max_min_clamp; discriminate).
  set (c := Math_max 0 (Math_min 1 p)) in *.
  set (c' := Math_max 0 (Math_min 1 q)) in *.
  assert (HvA : deckAVolume (applyCurve q curve) <= deckAVolume (applyCurve p curve)).
  { rewrite HA, HA'.
    destruct (Qle_bool c' (1 # 2)) eqn:E'; destruct (Qle_bool c (1 # 2)) eqn:E;
      try apply Qle_bool_iff in E'; try apply Qle_bool_iff in E;
      try apply Qle_bool_false_iff in E'; try apply Qle_bool_false_iff in E;
      lra. }
  assert (HvB : deckBVolume (applyCurve p curve) <= deckBVolume (applyCurve q curve)).
  { rewrite HB, HB'.
    destruct (Qle_bool c' (1 # 2)) eqn:E'; destruct (Qle_bool c (1 # 2)) eqn:E;
      try apply Qle_bool_iff in E'; try apply Qle_bool_iff in E;
      try apply Qle_bool_false_iff in E'; try apply Qle_bool_false_iff in E;
      lra. }
  destruct (applyCurve_outputs_total p curve) as (Ra & Rb & _).
  destruct (applyCurve_outputs_total q curve) as (Ra' & Rb' & _).
  cbv zeta in *.
  repeat split; try assumption.
  - rewrite HoA, HoA'. apply ratio_mono; try split; lra.
  - rewrite HoB, HoB'.
    rewrite (Qplus_comm (deckAVolume (applyCurve p curve))).
    rewrite (Qplus_comm (deckAVolume (applyCurve q curve))).
    apply ratio_mono; try split; lra.
Qed.

Lemma applyCurve_monotone_witness :
  deckAVolume (applyCurve 0.9 linear) <= deckAVolume (applyCurve 0.6 linear).
Proof.
  assert (H : 0.6 <= 0.9) by discriminate.
  exact (proj1 (applyCurve_monotone 0.6 0.9 linear H)).
Defined.

(** X5.  [midiToNormalized] is monotone, saturates outside 0..127, and on
    0..127 it is the exact quotient by 127, so distinct controller values
    give distinct positions. *)
Theorem midiToNormalized_faithful (m n : Q) :
  (m <= n -> midiToNormalized m <= midiToNormalized n) /\
  (m <= 0 -> midiToNormalized m == 0) /\
  (127 <= m -> midiToNormalized m == 1) /\
  (0 <= m <= 127 -> 127 * midiToNormalized m == m) /\
  (0 <= m <= 127 -> 0 <= n <= 127 ->
   midiToNormalized m == midiToNormalized n -> m == n).
Proof.
  assert (H0127 : 0 <= 127) by discriminate.
  assert (Hexact : forall x, 0 <= x <= 127 -> 127 * midiToNormalized x == x).
  { intros x Hx. unfold midiToNormalized.
    rewrite (Math_max_min_id 0 127 x Hx). field. }
  split; [|split; [|split; [|split]]].
  - intros H. unfold midiToNormalized.
    pose proof (clamp_mono 0 127 m n H) as Hm.
    set (a := Math_max 0 (Math_min 127 m)) in *.
    set (b := Math_max 0 (Math_min 127 n)) in *.
    rewrite !Qdiv_literal. lra.
  - intros H. unfold midiToNormalized.
    rewrite (clamp_below 0 127 m H0127 H). reflexivity.
  - intros H. unfold midiToNormalized.
    rewrite (clamp_above 0 127 m H0127 H). reflexivity.
  - apply Hexact.
  - intros Hm Hn E. rewrite <- (Hexact m Hm), <- (Hexact n Hn), E. reflexivity.
Qed.

Lemma midiToNormalized_faithful_witness :
  midiToNormalized 32 <= midiToNormalized 96 /\ 127 * midiToNormalized 64 == 64.
Proof.
  destruct (midiToNormalized_faithful 32 96) as (Hmono & _).
  destruct (midiToNormalized_faithful 64 64) as (_ & _ & _ & Hexact & _).
  split.
  - apply Hmono. discriminate.
  - apply Hexact. split; discriminate.
Defined.

(** X6.  [normalizedToVolume] is monotone and maps [0, 1] into 0..100, with
    0 at 0 and 100 at 1. *)
Theorem normalizedToVolume_range (x y : Q) :
  (x <= y -> (normalizedToVolume x <= normalizedToVolume y)%Z) /\
  (0 <= x <= 1 -> (0 <= normalizedToVolume x <= 100)%Z) /\
  normalizedToVolume 0 = 0%Z /\ normalizedToVolume 1 = 100%Z.
Proof.
  split; [|split; [|split; reflexivity]].
  - intros H. unfold normalizedToVolume. apply Math_round_mono. lra.
  - intros [H0 H1]. unfold normalizedToVolume. split.
    + apply Z.le_trans with (Math_round 0); [discriminate|].
      apply Math_round_mono. lra.
    + apply Z.le_trans with (Math_round 100); [|discriminate].
      apply Math_round_mono. lra.
Qed.

Lemma normalizedToVolume_range_witness :
  (0 <= normalizedToVolume 0.5 <= 100)%Z.
Proof.
  apply (proj1 (proj2 (normalizedToVolume_range 0.5 0.5))).
  split; discriminate.
Defined.

(** X7.  Whatever the crossfader position, the volume handed to each
    YouTube player is a whole percentage between 0 and 100, and at least one
    of the two players is at 100. *)
Theorem player_volume_percent (value : Q) (curve : CrossfaderCurve) :
  let out := applyCurve value curve in
  (0 <= volumePercent (deckAVolume out) <= 100)%Z /\
  (0 <= volumePercent (deckBVolume out) <= 100)%Z /\
  (volumePercent (deckAVolume out) = 100%Z \/
   volumePercent (deckBVolume out) = 100%Z).
Proof.
  intros out.
  destruct (applyCurve_outputs_total value curve) as (Ra & Rb & _ & _ & _ & Hone).
  fold out in Ra, Rb, Hone.
  assert (Hr : forall v, 0 <= v <= 1 -> (0 <= volumePercent v <= 100)%Z).
  { intros v Hv.
    exact (proj1 (proj2 (normalizedToVolume_range v v)) Hv). }
  split; [apply Hr; exact Ra|]. split; [apply Hr; exact Rb|].
  destruct Hone as [E|E]; [left | right]; unfold volumePercent;
    rewrite (Math_round_proper _ 100) by (rewrite E; reflexivity); reflexivity.
Qed.

(** X8.  For a position in [0, 1], [MixerCenter]'s two percentage labels,
    computed by their own formula, are the volumes of [applyCurve] as
    percentages. *)
Theorem mixer_labels_agree (crossfaderValue : Q) (curve : CrossfaderCurve) :
  0 <= crossfaderValue <= 1 ->
  labelA crossfaderValue
    = volumePercent (deckAVolume (applyCurve crossfaderValue curve)) /\
  labelB crossfaderValue
    = volumePercent (deckBVolume (applyCurve crossfaderValue curve)).
Proof.
  intros Hp. destruct (applyCurve_volumes crossfaderValue curve Hp) as [HA HB].
  unfold labelA, labelB, volumePercent. split; apply Math_round_proper.
  - rewrite HA.
    destruct (Qle_bool crossfaderValue (1 # 2)) eqn:E;
      destruct (Qle_bool crossfaderValue 0.5) eqn:E';
      try apply Qle_bool_iff in E; try apply Qle_bool_iff in E';
      try apply Qle_bool_false_iff in E; try apply Qle_bool_false_iff in E';
      lra.
  - rewrite HB.
    destruct (Qle_bool crossfaderValue (1 # 2)) eqn:E;
      destruct (Qle_bool 0.5 crossfaderValue) eqn:E';
      try apply Qle_bool_iff in E; try apply Qle_bool_iff in E';
      try apply Qle_bool_false_iff in E; try apply Qle_bool_false_iff in E';
      lra.
Qed.

Lemma mixer_labels_agree_witness :
  labelA 0.75 = volumePercent (deckAVolume (applyCurve 0.75 linear)).
Proof.
  assert (Hp : 0 <= 0.75 <= 1) by (split; discriminate).
  exact (proj1 (mixer_labels_agree 0.75 linear Hp)).
Defined.

End CrossfaderMore.

(** ** The store's actions *)

Section StoreFacts.
Import JS Crossfader Store Views.

Lemma call_mixInRange (a : Action) (s : DJStoreState) :
  mixInRange s -> mixInRange (call a s).
Proof.
  intros [Hc Hm]. assert (H01 : 0 <= 1) by discriminate.
  destruct a; unfold mixInRange; cbn; try (split; assumption).
  - split; [apply Math_max_min_clamp; exact H01 | exact Hm].
  - destruct audioContextOk; split; assumption.
  - split; [exact Hc | apply Math_max_min_clamp; exact H01].
Qed.

Lemma call_gainsInRange (a : Action) (s : DJStoreState) :
  writesRawGain a = false -> gainsInRange s -> gainsInRange (call a s).
Proof.
  intros Hraw [HA HB]. assert (H015 : 0 <= 1.5) by discriminate.
  destruct a; unfold gainsInRange; cbn in *; try (split; assumption).
  - destruct (p_gain updates); [discriminate|]. split; assumption.
  - destruct (p_gain updates); [discriminate|]. split; assumption.
  - destruct audioContextOk; split; assumption.
  - split; [apply Math_max_min_clamp; exact H015 | exact HB].
  - split; [exact HA | apply Math_max_min_clamp; exact H015].
Qed.

Lemma run_mixInRange (calls : list Action) (s : DJStoreState) :
  mixInRange s -> mixInRange (run calls s).
Proof.
  revert s. induction calls as [|a calls IH]; intros s H; cbn.
  - exact H.
  - apply IH. apply call_mixInRange. exact H.
Qed.

Lemma run_gainsInRange (calls : list Action) (s : DJStoreState) :
  forallb (fun a => negb (writesRawGain a)) calls = true ->
  gainsInRange s -> gainsInRange (run calls s).
Proof.
  revert s. induction calls as [|a calls IH]; intros s Hall H; cbn in *.
  - exact H.
  - apply andb_true_iff in Hall. destruct Hall as [Ha Hall].
    apply negb_true_iff in Ha. apply IH; [exact Hall|].
    apply call_gainsInRange; assumption.
Qed.

(** X9.  In every state the store reaches from its initial state, whatever
    actions are called with whatever arguments, the crossfader position and
    the master volume are in [0, 1]; the deck gains are in [0, 1.5] as long
    as no [updateDeckA]/[updateDeckB] patch carries a [gain]. *)
Theorem store_ranges_invariant (calls : list Action) :
  mixInRange (run calls initialState) /\
  (forallb (fun a => negb (writesRawGain a)) calls = true ->
   gainsInRange (run calls initialState)).
Proof.
  split.
  - apply run_mixInRange. unfold mixInRange. cbn. repeat split; discriminate.
  - intros Hall. apply run_gainsInRange; [exact Hall|].
    unfold gainsInRange. cbn. repeat split; discriminate.
Qed.

Lemma store_ranges_invariant_witness :
  gainsInRange
    (run [SetDeckAGain 9; SetCrossfader (-4); ToggleDeckAPlay; SetDeckBGain (-2)]
         initialState).
Proof.
  apply (proj2 (store_ranges_invariant
                  [SetDeckAGain 9; SetCrossfader (-4); ToggleDeckAPlay;
                   SetDeckBGain (-2)])).
  reflexivity.
Defined.

(** The exception is real: a patch with a gain bypasses the clamp. *)
Example updateDeckA_raw_gain :
  let patch :=
    {| p_videoId := None; p_title := None; p_artist := None;
       p_playing := None; p_lyrics := None; p_eq := None; p_gain := Some 5;
       p_filter := None; p_currentTime := None; p_duration := None;
       p_seekTo := None; p_playbackRate := None |} in
  gain (deckA (updateDeckA patch initialState)) = 5.
Proof. reflexivity. Qed.

Lemma deck_eta (d : DeckState) :
  {| videoId := videoId d; title := title d; artist := artist d;
     playing := playing d; lyrics := lyrics d; eq_ := eq_ d; gain := gain d;
     filter_ := filter_ d; currentTime := currentTime d;
     duration := duration d; seekTo := seekTo d;
     playbackRate := playbackRate d |} = d.
Proof. destruct d. reflexivity. Qed.

(** X10.  The play toggles are involutions and touch one deck each: a
    second toggle restores the state exactly, the toggles of the two decks
    commute, and a toggle followed by [setDeckAPlaying b] is
    [setDeckAPlaying b]. *)
Theorem toggle_play_involution (s : DJStoreState) (b : bool) :
  toggleDeckAPlay (toggleDeckAPlay s) = s /\
  toggleDeckBPlay (toggleDeckBPlay s) = s /\
  toggleDeckAPlay (toggleDeckBPlay s) = toggleDeckBPlay (toggleDeckAPlay s) /\
  setDeckAPlaying b (toggleDeckAPlay s) = setDeckAPlaying b s /\
  playing (deckA (toggleDeckAPlay s)) = negb (playing (deckA s)) /\
  deckB (toggleDeckAPlay s) = deckB s.
Proof.
  destruct s as [cv cc dA dB m ae mc]. destruct dA, dB.
  unfold toggleDeckAPlay, toggleDeckBPlay, setDeckAPlaying, withDeckA,
    withDeckB, deckWithPlaying. cbn.
  rewrite !negb_involutive. repeat split; reflexivity.
Qed.

(** X11.  A pending seek is a one-slot mailbox: a later [seekDeckA] replaces
    an earlier one, [clearSeekA] empties it, and when no seek was pending
    [seekDeckA] followed by [clearSeekA] restores the state exactly; no
    other property of the state changes. *)
Theorem seek_mailbox (s : DJStoreState) (t1 t2 : Q) :
  seekDeckA t2 (seekDeckA t1 s) = seekDeckA t2 s /\
  seekTo (deckA (seekDeckA t1 s)) = Some t1 /\
  seekTo (deckA (clearSeekA (seekDeckA t1 s))) = None /\
  clearSeekA (seekDeckA t1 s) = clearSeekA s /\
  (seekTo (deckA s) = None -> clearSeekA (seekDeckA t1 s) = s).
Proof.
  destruct s as [cv cc dA dB m ae mc]. destruct dA, dB.
  unfold seekDeckA, clearSeekA, withDeckA, deckWithSeekTo. cbn.
  repeat split; try reflexivity.
  intros ->. reflexivity.
Qed.

Lemma seek_mailbox_witness :
  clearSeekA (seekDeckA 42 initialState) = initialState.
Proof.
  apply (proj2 (proj2 (proj2 (proj2 (seek_mailbox initialState 42 0))))).
  reflexivity.
Defined.

Lemma over_idem {A : Type} (u : option A) (old : A) :
  over u (over u old) = over u old.
Proof. destruct u; reflexivity. Qed.



(** X13.  The equaliser setters merge band by band: a band the patch gives
    is set, a band it omits keeps its value, and the deck's other properties
    and the other deck are kept. *)
Theorem setDeckAEQ_merge (eq : PartialEQ) (s : DJStoreState) :
  high (eq_ (deckA (setDeckAEQ eq s))) = over (p_high eq) (high (eq_ (deckA s))) /\
  mid (eq_ (deckA (setDeckAEQ eq s))) = over (p_mid eq) (mid (eq_ (deckA s))) /\
  low (eq_ (deckA (setDeckAEQ eq s))) = over (p_low eq) (low (eq_ (deckA s))) /\
  setDeckAEQ eq (setDeckAEQ eq s) = setDeckAEQ eq s /\
  deckWithEQ (deckA (setDeckAEQ eq s)) (eq_ (deckA s)) = deckA s /\
  deckB (setDeckAEQ eq s) = deckB s.
Proof.
  destruct s as [cv cc dA dB m ae mc]. destruct dA as [? ? ? ? ? e ? ? ? ? ? ?].
  destruct e, eq as [h mi l].
  unfold setDeckAEQ, withDeckA, deckWithEQ, spreadEQ. cbn.
  rewrite !over_idem. repeat split; reflexivity.
Qed.

End StoreFacts.

(** ** The sync protocol *)

Section ProtocolFacts.
Import JS Crossfader Sync Store Views Channel.

(** X14.  A [FULL_STATE] resynchronises a receiver whatever it missed or
    held before: the history up to a [FULL_STATE] is irrelevant, and right
    after it the mirrored state is its payload. *)
Theorem full_state_resynchronises
    (before after : list BroadcastMessage)
    (snapshot init init' : gmap string JsValue) :
  receive (before ++ [FULL_STATE snapshot]) init = snapshot /\
  receive (before ++ FULL_STATE snapshot :: after) init
    = receive after snapshot /\
  receive (before ++ FULL_STATE snapshot :: after) init
    = receive (FULL_STATE snapshot :: after) init'.
Proof.
  unfold receive. rewrite !fold_left_app. cbn [fold_left handleBroadcastMessage].
  repeat split; reflexivity.
Qed.

(** X15.  [STATE_UPDATE]s compose by merging their patches, the later patch
    winning on a shared property; the empty patch is a no-op, and delivering
    a message twice is delivering it once. *)
Theorem state_update_composes
    (p1 p2 : gmap string JsValue) (m : BroadcastMessage)
    (state : gmap string JsValue) :
  handleBroadcastMessage (STATE_UPDATE p2)
      (handleBroadcastMessage (STATE_UPDATE p1) state)
    = handleBroadcastMessage (STATE_UPDATE (spread p1 p2)) state /\
  handleBroadcastMessage (STATE_UPDATE ∅) state = state /\
  handleBroadcastMessage m (handleBroadcastMessage m state)
    = handleBroadcastMessage m state.
Proof.
  unfold handleBroadcastMessage, spread. repeat split.
  - apply (assoc_L (∪)).
  - apply (left_id_L ∅ (∪)).
  - destruct m as [p|p]; [|reflexivity].
    rewrite (assoc_L (∪)). rewrite (idemp_L (∪)). reflexivity.
Qed.

(** X16.  The transport is unordered: two [STATE_UPDATE]s whose patches
    share no property can be delivered in either order with the same
    result; when they share one, the later delivery decides it. *)
Theorem state_updates_commute_when_disjoint
    (p1 p2 : gmap string JsValue) (state : gmap string JsValue) :
  (dom p1 ## dom p2 ->
   handleBroadcastMessage (STATE_UPDATE p1)
       (handleBroadcastMessage (STATE_UPDATE p2) state)
     = handleBroadcastMessage (STATE_UPDATE p2)
         (handleBroadcastMessage (STATE_UPDATE p1) state)) /\
  (forall k v, p1 !! k = Some v ->
   handleBroadcastMessage (STATE_UPDATE p1)
       (handleBroadcastMessage (STATE_UPDATE p2) state) !! k = Some v).
Proof.
  unfold handleBroadcastMessage, spread. split.
  - intros Hdisj. rewrite !(assoc_L (∪)). f_equal.
    apply map_union_comm. apply map_disjoint_dom_2. exact Hdisj.
  - intros k v H. apply lookup_union_Some_l. exact H.
Qed.

Lemma state_updates_commute_when_disjoint_witness :
  handleBroadcastMessage (STATE_UPDATE {[ "crossfaderValue" := VNum 1 ]})
      (handleBroadcastMessage (STATE_UPDATE Inputs.patchPlaying) DEFAULT_DJ_STATE)
    = handleBroadcastMessage (STATE_UPDATE Inputs.patchPlaying)
        (handleBroadcastMessage (STATE_UPDATE {[ "crossfaderValue" := VNum 1 ]})
           DEFAULT_DJ_STATE).
Proof.
  apply (proj1 (state_updates_commute_when_disjoint
                  {[ "crossfaderValue" := VNum 1 ]} Inputs.patchPlaying
                  DEFAULT_DJ_STATE)).
  unfold Inputs.patchPlaying. rewrite !dom_singleton_L.
  apply disjoint_singleton_l. rewrite elem_of_singleton. discriminate.
Defined.

(** The order matters as soon as a property is shared. *)
Example state_updates_conflict :
  handleBroadcastMessage (STATE_UPDATE {[ "crossfaderValue" := VNum 1 ]})
      (handleBroadcastMessage (STATE_UPDATE {[ "crossfaderValue" := VNum 0 ]})
         DEFAULT_DJ_STATE) !! "crossfaderValue" = Some (VNum 1) /\
  handleBroadcastMessage (STATE_UPDATE {[ "crossfaderValue" := VNum 0 ]})
      (handleBroadcastMessage (STATE_UPDATE {[ "crossfaderValue" := VNum 1 ]})
         DEFAULT_DJ_STATE) !! "crossfaderValue" = Some (VNum 0).
Proof. split; reflexivity. Qed.

Lemma getStoreState_crossfader (s : DJStoreState) :
  getStoreState s !! "crossfaderValue" = Some (VNum (crossfaderValue s)).
Proof. unfold getStoreState. apply lookup_insert_eq. Qed.

Lemma getStoreState_curve (s : DJStoreState) :
  getStoreState s !! "crossfaderCurve" = Some (curveToJs (crossfaderCurve s)).
Proof.
  unfold getStoreState. rewrite lookup_insert_ne by discriminate.
  apply lookup_insert_eq.
Qed.

(** X17.  The projector mixes like the main window.  Before any message its
    default state is the snapshot of the store's initial state; and whatever
    the store has been through and whatever the projector held, once the
    snapshot [getStoreState()] has been delivered as a [FULL_STATE] the
    projector's [applyCurve] outputs are the main window's. *)
Theorem projector_follows_store
    (calls : list Action) (prev : gmap string JsValue) :
  getStoreState initialState = DEFAULT_DJ_STATE /\
  let store := run calls initialState in
  let mirror := handleBroadcastMessage (FULL_STATE (getStoreState store)) prev in
  mirror = getStoreState store /\
  projectorMixValues mirror = Some (mixValues store).
Proof.
  split; [reflexivity|]. intros store mirror. split; [reflexivity|].
  subst mirror. cbn [handleBroadcastMessage]. unfold projectorMixValues.
  rewrite getStoreState_crossfader, getStoreState_curve. unfold mixValues.
  destruct (crossfaderCurve store); reflexivity.
Qed.

(** X18.  The untyped [setCrossfader] on the snapshot is the snapshot of the
    typed one, and a delta carrying only the new position brings a mirror
    that held the old snapshot to the new snapshot: for a crossfader move
    the [STATE_UPDATE] and the [FULL_STATE] protocols agree. *)
Theorem crossfader_delta_equals_snapshot (value : Q) (s : DJStoreState) :
  let s' := Store.setCrossfader value s in
  getStoreState s' = Sync.setCrossfader value (getStoreState s) /\
  handleBroadcastMessage
    (STATE_UPDATE {[ "crossfaderValue" := VNum (crossfaderValue s') ]})
    (getStoreState s)
  = handleBroadcastMessage (FULL_STATE (getStoreState s')) (getStoreState s).
Proof.
  intros s'.
  assert (E : getStoreState s' = Sync.setCrossfader value (getStoreState s)).
  { subst s'. unfold Sync.setCrossfader, Sync.set, spread.
    rewrite <- insert_union_singleton_l. unfold getStoreState.
    rewrite insert_insert_eq. reflexivity. }
  split; [exact E|].
  cbn [handleBroadcastMessage]. rewrite E.
  unfold Sync.setCrossfader, Sync.set, spread. reflexivity.
Qed.

End ProtocolFacts.

(** ** The decoder, end to end *)

Section MidiFacts.
Import JS Crossfader Midi Store MidiSetup.

(** X19.  The decoder's classification of a three-byte message, read off
    its type nibble, channel nibble and data bytes: a crossfader move exactly
    for a control change of controller 51, on any channel; a play toggle or a
    cue exactly for a note-on of non-zero velocity of note 11 or 12 on
    channel 0 (deck A) or 1 (deck B); unmapped otherwise. *)
Theorem handleMidiMessage_classification (status data1 data2 : Z) :
  let messageType := Z.land status 0xf0 in
  let channel := Z.land status 0x0f in
  let event := handleMidiMessage [status; data1; data2] in
  ((exists v, event = CrossfaderMove v) <->
   messageType = 0xb0%Z /\ data1 = 51%Z) /\
  (messageType = 0xb0%Z -> data1 = 51%Z ->
   event = CrossfaderMove (midiToNormalized (inject_Z data2))) /\
  (event = TransportToggle DeckA <->
   messageType = 0x90%Z /\ (0 < data2)%Z /\ data1 = 11%Z /\ channel = 0%Z) /\
  (event = TransportToggle DeckB <->
   messageType = 0x90%Z /\ (0 < data2)%Z /\ data1 = 11%Z /\ channel = 1%Z) /\
  (event = CueTrigger DeckA <->
   messageType = 0x90%Z /\ (0 < data2)%Z /\ data1 = 12%Z /\ channel = 0%Z) /\
  (event = CueTrigger DeckB <->
   messageType = 0x90%Z /\ (0 < data2)%Z /\ data1 = 12%Z /\ channel = 1%Z) /\
  event <> Dropped.
Proof.
  intros messageType channel event. subst event.
  unfold handleMidiMessage, noteOn.
  fold messageType. fold channel.
  unfold DDJ200.CROSSFADER_CC, DDJ200.DECK_A_PLAY_NOTE, DDJ200.DECK_A_CUE_NOTE.
  generalize messageType channel. clear messageType channel.
  intros messageType channel.
  destruct (Z.eqb_spec messageType 176), (Z.eqb_spec data1 51),
    (Z.eqb_spec messageType 144), (Z.ltb_spec 0 data2),
    (Z.eqb_spec data1 11), (Z.eqb_spec data1 12),
    (Z.eqb_spec channel 0), (Z.eqb_spec channel 1);
    cbn [andb]; subst;
    repeat split; intros;
    try discriminate; try lia; try congruence; try reflexivity;
    repeat match goal with
           | H : exists _, _ |- _ => destruct H
           | H : _ /\ _ |- _ => destruct H
           end;
    try discriminate; try lia; try congruence; eauto.
Qed.

Lemma handleMidiMessage_classification_witness :
  handleMidiMessage [0xb7; 51; 0]%Z
    = CrossfaderMove (midiToNormalized (inject_Z 0)).
Proof.
  destruct (handleMidiMessage_classification 0xb7 51 0) as (_ & H & _).
  apply H; reflexivity.
Defined.

Lemma onMidiMessage_ranges (data : list Z) (s : DJStoreState) :
  (mixInRange s -> mixInRange (onMidiMessage data s)) /\
  (gainsInRange s -> gainsInRange (onMidiMessage data s)).
Proof.
  unfold onMidiMessage.
  destruct (eventAction (handleMidiMessage data)) as [a|] eqn:E;
    [|split; trivial].
  split; [apply call_mixInRange|]. apply call_gainsInRange.
  destruct (handleMidiMessage data) as [v|[|]|d| |]; cbn in E;
    try discriminate; injection E as <-; reflexivity.
Qed.

(** X20.  What a MIDI message can do to the store.  It keeps the crossfader
    and master volume in [0, 1] and the gains in [0, 1.5].  A message of
    fewer than two bytes, a message that is neither a control change nor a
    note-on, a note-on of velocity 0 and a cue note leave the store exactly
    as it was.  A control change of controller 51 with a value in 0..127 sets
    the position to value/127 and nothing else.  Pressing play twice restores
    the store. *)
Theorem onMidiMessage_effects
    (status data1 data2 : Z) (data : list Z) (s : DJStoreState) :
  (mixInRange s -> mixInRange (onMidiMessage data s)) /\
  (gainsInRange s -> gainsInRange (onMidiMessage data s)) /\
  ((length data < 2)%nat -> onMidiMessage data s = s) /\
  (Z.land status 0xf0 <> 0xb0%Z -> Z.land status 0xf0 <> 0x90%Z ->
   onMidiMessage [status; data1; data2] s = s) /\
  (Z.land status 0xf0 = 0x90%Z ->
   (data2 <= 0)%Z \/ data1 = 12%Z ->
   onMidiMessage [status; data1; data2] s = s) /\
  (Z.land status 0xf0 = 0xb0%Z -> (0 <= data2 <= 127)%Z ->
   let s' := onMidiMessage [status; 51%Z; data2] s in
   crossfaderValue s' == inject_Z data2 / 127 /\
   deckA s' = deckA s /\ deckB s' = deckB s /\ master s' = master s) /\
  ((0 < data2)%Z ->
   onMidiMessage [0x90%Z; 11%Z; data2]
     (onMidiMessage [0x90%Z; 11%Z; data2] s) = s).
Proof.
  destruct (onMidiMessage_ranges data s) as [Hm Hg].
  split; [exact Hm|]. split; [exact Hg|].
  split; [|split; [|split; [|split]]].
  - intros Hlen. destruct data as [|a [|b rest]]; cbn in Hlen; try lia;
      reflexivity.
  - intros Hcc Hnote. unfold onMidiMessage, handleMidiMessage.
    destruct (Z.eqb_spec (Z.land status 240) 176); [contradiction|].
    destruct (Z.eqb_spec (Z.land status 240) 144); [contradiction|].
    reflexivity.
  - intros Hnote Hwhy. unfold onMidiMessage, handleMidiMessage. rewrite Hnote.
    cbn [Z.eqb Pos.eqb andb].
    destruct Hwhy as [Hvel| ->].
    + destruct (Z.ltb_spec 0 data2); [lia | reflexivity].
    + destruct (0 <? data2)%Z; [|reflexivity].
      unfold noteOn. cbn.
      destruct (Z.land status 15 =? 0)%Z; [reflexivity|].
      destruct (Z.land status 15 =? 1)%Z; reflexivity.
  - intros Hcc Hrange s'. subst s'. unfold onMidiMessage, handleMidiMessage.
    rewrite Hcc. cbn [Z.eqb Pos.eqb andb DDJ200.CROSSFADER_CC eventAction call].
    unfold Store.setCrossfader. cbn. repeat split.
    assert (Hq : 0 <= inject_Z data2 <= 127).
    { split.
      - change 0 with (inject_Z 0). rewrite <- Zle_Qle. lia.
      - change 127 with (inject_Z 127). rewrite <- Zle_Qle. lia. }
    assert (Hn : 0 <= midiToNormalized (inject_Z data2) <= 1)
      by apply midiToNormalized_range.
    rewrite (Math_max_min_id 0 1 _ Hn). unfold midiToNormalized.
    rewrite (Math_max_min_id 0 127 _ Hq). reflexivity.
  - intros Hvel. unfold onMidiMessage, handleMidiMessage.
    cbn [Z.land Pos.land Z.eqb Pos.eqb andb].
    destruct (Z.ltb_spec 0 data2); [|lia]. cbn.
    apply (proj1 (toggle_play_involution s true)).
Qed.

Lemma onMidiMessage_effects_witness :
  crossfaderValue (onMidiMessage [0xb0; 51; 127]%Z initialState)
    == inject_Z 127 / 127 /\
  onMidiMessage [0x80; 11; 64]%Z initialState = initialState.
Proof.
  destruct (onMidiMessage_effects 0xb0 51 127 [] initialState)
    as (_ & _ & _ & _ & _ & Hcc & _).
  destruct (onMidiMessage_effects 0x80 11 64 [] initialState)
    as (_ & _ & _ & Hoff & _).
  split.
  - apply Hcc; [reflexivity | lia].
  - apply Hoff; discriminate.
Defined.

(** *** Device discovery *)

Lemma setupStep_found (d : option string) (names : list (option string)) :
  forallb (fun n => negb (isDDJ200 n)) names = true ->
  fold_left setupStep names (true, d) = (true, d).
Proof.
  induction names as [|n names IH]; intros Hall; cbn in *; [reflexivity|].
  apply andb_true_iff in Hall. destruct Hall as [Hn Hall].
  apply negb_true_iff in Hn. rewrite Hn. apply IH. exact Hall.
Qed.

Lemma setupStep_matching (acc : bool * option string) (n : option string) :
  isDDJ200 n = true -> setupStep acc n = (true, n).
Proof. intros H. unfold setupStep. destruct acc. rewrite H. reflexivity. Qed.

Lemma setup_fold_found (names : list (option string)) (acc : bool * option string) :
  names <> [] -> fst (fold_left setupStep names acc) = true.
Proof.
  revert acc. induction names as [|n names IH]; intros acc Hne; [contradiction|].
  cbn [fold_left]. destruct names as [|n' names'].
  - cbn. unfold setupStep. destruct acc as [f d].
    destruct (isDDJ200 n); [reflexivity|]. destruct f; reflexivity.
  - apply IH. discriminate.
Qed.

(** X21.  Device discovery.  The controller counts as connected exactly
    when there is at least one MIDI input.  The reported device is the last
    input whose name contains "DDJ-200" (in any letter case) when there is
    one, whatever other inputs come before or after; with none it falls back
    to the first input, under its name or under "Unknown MIDI Device" when it
    has none; with no input at all the name is reset. *)
Theorem setupMidiInputs_selection (inputs : list (option string)) :
  (fst (setupMidiInputs inputs) = true <-> inputs <> []) /\
  (inputs = [] -> setupMidiInputs inputs = (false, None)) /\
  (forall before n after,
     inputs = before ++ n :: after ->
     isDDJ200 n = true ->
     forallb (fun m => negb (isDDJ200 m)) after = true ->
     setupMidiInputs inputs = (true, n)) /\
  (forall first rest,
     inputs = first :: rest ->
     forallb (fun m => negb (isDDJ200 m)) inputs = true ->
     setupMidiInputs inputs = (true, Some (displayName first))).
Proof.
  split; [|split; [|split]].
  - unfold setupMidiInputs. split.
    + intros H ->. cbn in H. discriminate.
    + intros Hne. pose proof (setup_fold_found inputs (false, None) Hne) as H.
      destruct (fold_left setupStep inputs (false, None)) as [f d].
      cbn in H. subst f. reflexivity.
  - intros ->. reflexivity.
  - intros before n after -> Hn Hafter. unfold setupMidiInputs.
    rewrite fold_left_app. cbn [fold_left].
    rewrite (setupStep_matching _ n Hn).
    rewrite (setupStep_found n after Hafter). reflexivity.
  - intros first rest -> Hall. unfold setupMidiInputs. cbn [fold_left].
    cbn [forallb] in Hall. apply andb_true_iff in Hall.
    destruct Hall as [Hfirst Hrest]. apply negb_true_iff in Hfirst.
    unfold setupStep at 2. rewrite Hfirst.
    rewrite (setupStep_found _ rest Hrest). reflexivity.
Qed.

Lemma setupMidiInputs_selection_witness :
  setupMidiInputs
    [Some "IAC Driver"; Some "Pioneer ddj-200 MIDI"; None]%string
  = (true, Some "Pioneer ddj-200 MIDI"%string) /\
  setupMidiInputs [Some ""; Some "Launchpad"]%string
  = (true, Some "Unknown MIDI Device"%string).
Proof.
  split.
  - apply (proj1 (proj2 (proj2 (setupMidiInputs_selection _)))
             [Some "IAC Driver"%string] (Some "Pioneer ddj-200 MIDI"%string)
             [None]); reflexivity.
  - apply (proj2 (proj2 (proj2 (setupMidiInputs_selection _)))
             (Some ""%string) [Some "Launchpad"%string]); reflexivity.
Defined.

(** The pattern on a few names: any letter case, anywhere in the name. *)
Example DEVICE_NAME_PATTERN_examples :
  DEVICE_NAME_PATTERN_test "DDJ-200" = true /\
  DEVICE_NAME_PATTERN_test "Pioneer ddj-200 MIDI 1" = true /\
  DEVICE_NAME_PATTERN_test "DDJ-400" = false /\
  DEVICE_NAME_PATTERN_test "DDJ200" = false /\
  DEVICE_NAME_PATTERN_test "" = false.
Proof. repeat split; reflexivity. Qed.

End MidiFacts.

(** ** More on the waveform analyser *)

Section WaveformMore.
Import JS Waveform.

Lemma applyDynamicScaling_formula (x : Q) :
  (x < 0.4 -> applyDynamicScaling x == x * (3 # 8)) /\
  (0.4 <= x -> applyDynamicScaling x == 0.15 + (x - 0.4) * (17 # 12)).
Proof.
  unfold applyDynamicScaling. split; intros H.
  - apply Qlt_bool_iff in H. rewrite H. field.
  - apply Qlt_bool_false_iff in H. rewrite H. field.
Qed.

(** X22.  The dynamic scaling is a continuous, increasing two-segment map:
    it preserves order, sends 0 to 0, the threshold 0.4 to 0.15 and 1 to 1,
    and an input is below the threshold exactly when its output is below
    0.15. *)
Theorem applyDynamicScaling_shape (x y : Q) :
  (x <= y -> applyDynamicScaling x <= applyDynamicScaling y) /\
  applyDynamicScaling 0 == 0 /\
  applyDynamicScaling 0.4 == 0.15 /\
  applyDynamicScaling 1 == 1 /\
  (x < 0.4 <-> applyDynamicScaling x < 0.15).
Proof.
  destruct (applyDynamicScaling_formula x) as [Hx1 Hx2].
  destruct (applyDynamicScaling_formula y) as [Hy1 Hy2].
  split; [|split; [|split; [|split]]]; try reflexivity.
  - intros Hxy.
    destruct (Qlt_le_dec x 0.4) as [Hx|Hx]; destruct (Qlt_le_dec y 0.4) as [Hy|Hy].
    + rewrite (Hx1 Hx), (Hy1 Hy). lra.
    + rewrite (Hx1 Hx), (Hy2 Hy). lra.
    + lra.
    + rewrite (Hx2 Hx), (Hy2 Hy). lra.
  - split; intros H.
    + rewrite (Hx1 H). lra.
    + destruct (Qlt_le_dec x 0.4) as [Hx|Hx]; [exact Hx|].
      rewrite (Hx2 Hx) in H. lra.
Qed.

Lemma applyDynamicScaling_shape_witness :
  applyDynamicScaling 0.2 <= applyDynamicScaling 0.7.
Proof.
  apply (proj1 (applyDynamicScaling_shape 0.2 0.7)). discriminate.
Defined.

Lemma applyDynamicScaling_at_1 (v : Q) : v == 1 -> applyDynamicScaling v == 1.
Proof.
  intros H. destruct (applyDynamicScaling_formula v) as [_ H2].
  rewrite H2 by lra. lra.
Qed.

Lemma In_map_all {A B : Type} (f : A -> B) (l : list A) (b : B) :
  (forall a, In a l -> f a = b) -> forall v, In v (map f l) -> v = b.
Proof.
  intros H v Hv. apply in_map_iff in Hv. destruct Hv as (a & <- & Ha).
  apply H. exact Ha.
Qed.

(** X23.  A buffer with fewer data bytes (after the header) than requested
    samples has windows of width 0: every window is empty and the result is
    the all-zero series. *)
Theorem generateWaveformData_short_buffer
    (audioBuffer : list byte) (sampleCount : nat) :
  (length audioBuffer - Nat.min 100 (length audioBuffer / 100) < sampleCount)%nat ->
  generateWaveformData audioBuffer sampleCount = repeat 0 sampleCount.
Proof.
  intros Hshort. unfold generateWaveformData.
  set (headerOffset := Nat.min 100 (length audioBuffer / 100)) in *.
  rewrite (Nat.div_small _ _ Hshort).
  assert (Hlen : length (map (windowSample audioBuffer headerOffset 0)
                             (seq 0 sampleCount)) = sampleCount).
  { rewrite length_map. apply length_seq. }
  assert (Hraw : forall v,
             In v (map (windowSample audioBuffer headerOffset 0)
                       (seq 0 sampleCount)) ->
             v = Math_min 1 (0 / 80)).
  { apply In_map_all. intros i _. unfold windowSample.
    rewrite Nat.mul_0_r, !Nat.add_0_r.
    replace (Nat.min headerOffset (length audioBuffer) - headerOffset)%nat
      with 0%nat by lia.
    reflexivity. }
  destruct (map (windowSample audioBuffer headerOffset 0) (seq 0 sampleCount))
    as [|w ws].
  - rewrite <- Hlen. reflexivity.
  - rewrite (Hraw _ (fold_max_in ws w)).
    replace (Qlt_bool (Math_min 1 (0 / 80)) 0.02) with true by reflexivity.
    rewrite map_const_zero, Hlen. reflexivity.
Qed.

Lemma generateWaveformData_short_buffer_witness :
  generateWaveformData (repeat xff 150) 200 = repeat 0 200%nat.
Proof.
  apply generateWaveformData_short_buffer.
  rewrite repeat_length. apply Nat.ltb_lt. vm_compute. reflexivity.
Defined.

(** X24.  The result is normalised to full scale: either it is the all-zero
    series (the track is too quiet) or its loudest sample is exactly 1. *)
Theorem generateWaveformData_full_scale
    (audioBuffer : list byte) (sampleCount : nat) :
  generateWaveformData audioBuffer sampleCount = repeat 0 sampleCount \/
  Exists (fun v => v == 1) (generateWaveformData audioBuffer sampleCount).
Proof.
  unfold generateWaveformData.
  set (headerOffset := Nat.min 100 (length audioBuffer / 100)).
  set (abps := ((length audioBuffer - headerOffset) / sampleCount)%nat).
  assert (Hlen : length (map (windowSample audioBuffer headerOffset abps)
                             (seq 0 sampleCount)) = sampleCount).
  { rewrite length_map. apply length_seq. }
  destruct (map (windowSample audioBuffer headerOffset abps) (seq 0 sampleCount))
    as [|w ws].
  - left. rewrite <- Hlen. reflexivity.
  - pose proof (fold_max_in ws w) as Hin.
    pose proof (fold_min_lower ws w) as Hmin.
    set (max := fold_left Math_max ws w) in *.
    set (min := fold_left Math_min ws w) in *.
    destruct (Qlt_bool max 0.02) eqn:Equiet.
    + left. rewrite map_const_zero, Hlen. reflexivity.
    + right. apply Qlt_bool_false_iff in Equiet.
      apply List.Exists_exists.
      destruct (Qlt_bool 0.01 (max - min)) eqn:Erange.
      * apply Qlt_bool_iff in Erange.
        exists (applyDynamicScaling ((max - min) / (max - min))). split.
        -- rewrite map_map.
           apply (in_map (fun v => applyDynamicScaling ((v - min) / (max - min)))).
           exact Hin.
        -- apply applyDynamicScaling_at_1. field. lra.
      * exists (applyDynamicScaling (max / max)). split.
        -- rewrite map_map.
           apply (in_map (fun v => applyDynamicScaling (v / max))). exact Hin.
        -- apply applyDynamicScaling_at_1. field. lra.
Qed.

(** *** Tempo *)

(** X25.  [detectBPM] returns the sentinel 0 whenever the series has fewer
    than 100 samples or the duration is under 10 seconds; in every case its
    result is 0 or an integer from 60 to 360. *)
Theorem detectBPM_sentinel_and_range (waveform : list Q) (durationSeconds : Q) :
  ((length waveform < 100)%nat \/ durationSeconds < 10 ->
   detectBPM waveform durationSeconds = 0%Z) /\
  (detectBPM waveform durationSeconds = 0%Z \/
   (60 <= detectBPM waveform durationSeconds <= 360)%Z).
Proof.
  split; [apply detectBPM_too_short | apply detectBPM_bounds].
Qed.

Lemma detectBPM_sentinel_and_range_witness :
  detectBPM (repeat 1 99) 180 = 0%Z /\ detectBPM (repeat 1 5) 9 = 0%Z.
Proof.
  split.
  - apply (proj1 (detectBPM_sentinel_and_range (repeat 1 99) 180)).
    left. rewrite repeat_length. lia.
  - apply (proj1 (detectBPM_sentinel_and_range (repeat 1 5) 9)).
    right. reflexivity.
Defined.









End WaveformMore.

(** ** More on the synthetic fallback *)

Section SyntheticMore.
Import JS Waveform.

Variable Math_sin : Q -> Q.
Variable Math_PI : Q.

(** X27.  The synthetic series has exactly [samples] entries, each in
    [0.08, 1.1]; outside the two louder sections of each group of four (the
    "chorus" eighths of the track) every entry is at most 1; and a missing
    track id seeds the generator like the empty one. *)
Theorem generateSyntheticWaveform_shape
    (samples : nat) (duration : Q) (videoId : option string) :
  let waveform :=
    generateSyntheticWaveform Math_sin Math_PI samples duration videoId in
  length waveform = samples /\
  Forall (fun v => 0.08 <= v <= 1.1) waveform /\
  (forall i v,
     nth_error waveform i = Some v ->
     let t := inject_Z (Z.of_nat i) / inject_Z (Z.of_nat samples) in
     (Z.rem (Math_floor (t * 8)) 4 <? 2)%Z = true ->
     v <= 1) /\
  seedOf duration None = seedOf duration (Some ""%string).
Proof.
  intros waveform. split; [|split; [|split]].
  - subst waveform. unfold generateSyntheticWaveform.
    rewrite length_map. apply length_seq.
  - apply generateSyntheticWaveform_range.
  - intros i v Hv t Hsec. subst waveform. unfold generateSyntheticWaveform in Hv.
    rewrite nth_error_map in Hv.
    destruct (nth_error (seq 0 samples) i) as [k|] eqn:Ek; [|discriminate].
    assert (Hk : k = i).
    { pose proof (nth_error_nth _ _ 0%nat Ek) as Hn.
      assert (Hi : (i < length (seq 0 samples))%nat)
        by (apply nth_error_Some; congruence).
      rewrite length_seq in Hi.
      rewrite seq_nth in Hn by exact Hi. cbn in Hn. congruence. }
    subst k. cbn in Hv. injection Hv as <-.
    unfold syntheticSample. fold t.
    set (raw := _ + _ + _ + _ + _).
    pose proof (clamp_sample_range raw) as Hc.
    set (c := Math_max 0.08 (Math_min 1 (Math_abs raw))) in *.
    set (bp := random Math_sin (seedOf duration videoId)
                      (inject_Z (Z.of_nat i) * 0.1)).
    assert (Hbeat : (if Qlt_bool 0.85 bp
                     then Math_min 1 (c * (1.2 + bp * 0.5)) else c) <= 1).
    { destruct (Qlt_bool 0.85 bp); [apply Q.le_min_l | apply Hc]. }
    apply Z.ltb_lt in Hsec.
    destruct (Z.eqb_spec (Z.rem (Math_floor (t * 8)) 4) 2); [lia|].
    destruct (Z.eqb_spec (Z.rem (Math_floor (t * 8)) 4) 3); [lia|].
    exact Hbeat.
  - reflexivity.
Qed.

End SyntheticMore.

Section SyntheticMoreWitness.
Import JS Waveform Inputs.

Lemma generateSyntheticWaveform_shape_witness :
  exists v,
    nth_error
      (generateSyntheticWaveform tableSin piApprox 200 180 (Some "abc123"%string))
      30 = Some v /\
    v <= 1.
Proof.
  destruct (generateSyntheticWaveform_shape tableSin piApprox 200 180
              (Some "abc123"%string)) as (_ & _ & H & _).
  eexists. split; [reflexivity|].
  apply (H 30%nat); reflexivity.
Defined.

End SyntheticMoreWitness.

(** ** The waveform seek bar *)

Section SeekBarFacts.
Import JS SeekBar.

Lemma cubic_basis_signs (t : Q) :
  0 <= t <= 1 ->
  (- t + 2 * (t * t) - t * t * t) <= 0 /\
  0 <= (2 - 5 * (t * t) + 3 * (t * t * t)) /\
  0 <= (t + 4 * (t * t) - 3 * (t * t * t)) /\
  (- (t * t) + t * t * t) <= 0 /\
  t - t * t <= 1 # 4.
Proof.
  intros [H0 H1].
  assert (A : 0 <= t * t) by (apply Qmult_le_0_compat; exact H0).
  assert (U : 0 <= 1 - t) by lra.
  assert (V : 0 <= t * (1 - t)) by (apply Qmult_le_0_compat; assumption).
  assert (B : t * t <= t).
  { assert (E : t * (1 - t) == t - t * t) by ring. rewrite E in V. lra. }
  assert (F0 : 0 <= t * (1 - t) * (1 - t)) by (apply Qmult_le_0_compat; assumption).
  assert (F1 : 0 <= (1 - t) * (2 + 2 * t - 3 * (t * t)))
    by (apply Qmult_le_0_compat; lra).
  assert (F2 : 0 <= t * (1 + 4 * t - 3 * (t * t)))
    by (apply Qmult_le_0_compat; lra).
  assert (F3 : 0 <= t * t * (1 - t)) by (apply Qmult_le_0_compat; assumption).
  assert (F4 : 0 <= (t - (1 # 2)) * (t - (1 # 2))).
  { destruct (Qlt_le_dec t (1 # 2)) as [Hlt|Hge].
    - assert (E : (t - (1 # 2)) * (t - (1 # 2))
                  == ((1 # 2) - t) * ((1 # 2) - t)) by ring.
      rewrite E. apply Qmult_le_0_compat; lra.
    - apply Qmult_le_0_compat; lra. }
  assert (E0 : - t + 2 * (t * t) - t * t * t == - (t * (1 - t) * (1 - t))) by ring.
  assert (E1 : 2 - 5 * (t * t) + 3 * (t * t * t)
               == (1 - t) * (2 + 2 * t - 3 * (t * t))) by ring.
  assert (E2 : t + 4 * (t * t) - 3 * (t * t * t)
               == t * (1 + 4 * t - 3 * (t * t))) by ring.
  assert (E3 : - (t * t) + t * t * t == - (t * t * (1 - t))) by ring.
  assert (E4 : t - t * t == (1 # 4) - (t - (1 # 2)) * (t - (1 # 2))) by ring.
  rewrite E0, E1, E2, E3, E4. repeat split; lra.
Qed.

Lemma cubicInterpolate_overshoot (p0 p1 p2 p3 t : Q) :
  0 <= p0 <= 1 -> 0 <= p1 <= 1 -> 0 <= p2 <= 1 -> 0 <= p3 <= 1 ->
  0 <= t <= 1 ->
  - (1 # 8) <= cubicInterpolate p0 p1 p2 p3 t <= 9 # 8.
Proof.
  intros H0 H1 H2 H3 Ht.
  destruct (cubic_basis_signs t Ht) as (B0 & B1 & B2 & B3 & Bq).
  assert (E : cubicInterpolate p0 p1 p2 p3 t ==
              (1 # 2) * ((- t + 2 * (t * t) - t * t * t) * p0
                         + (2 - 5 * (t * t) + 3 * (t * t * t)) * p1
                         + (t + 4 * (t * t) - 3 * (t * t * t)) * p2
                         + (- (t * t) + t * t * t) * p3)).
  { unfold cubicInterpolate. ring. }
  rewrite E.
  set (b0 := - t + 2 * (t * t) - t * t * t) in *.
  set (b1 := 2 - 5 * (t * t) + 3 * (t * t * t)) in *.
  set (b2 := t + 4 * (t * t) - 3 * (t * t * t)) in *.
  set (b3 := - (t * t) + t * t * t) in *.
  assert (S : b0 + b1 + b2 + b3 == 2) by (unfold b0, b1, b2, b3; ring).
  assert (S03 : b0 + b3 == - (t - t * t)) by (unfold b0, b3; ring).
  assert (P0 : b0 <= b0 * p0 <= 0) by (split; nra).
  assert (P1 : 0 <= b1 * p1 <= b1) by (split; nra).
  assert (P2 : 0 <= b2 * p2 <= b2) by (split; nra).
  assert (P3 : b3 <= b3 * p3 <= 0) by (split; nra).
  split; lra.
Qed.

(** X28.  The cubic interpolation passes through its two middle points (at
    [t = 0] and [t = 1]), returns the constant on constant data and
    reproduces data that lie on a straight line.  Between samples it can
    overshoot: for data in [0, 1] and [t] in [0, 1] its value lies in
    [-1/8, 9/8], and both bounds are attained. *)
Theorem cubicInterpolate_interpolates (p0 p1 p2 p3 a b t : Q) :
  cubicInterpolate p0 p1 p2 p3 0 == p1 /\
  cubicInterpolate p0 p1 p2 p3 1 == p2 /\
  cubicInterpolate a a a a t == a /\
  cubicInterpolate a (a + b) (a + 2 * b) (a + 3 * b) t == a + b * (1 + t) /\
  (0 <= p0 <= 1 -> 0 <= p1 <= 1 -> 0 <= p2 <= 1 -> 0 <= p3 <= 1 ->
   0 <= t <= 1 ->
   - (1 # 8) <= cubicInterpolate p0 p1 p2 p3 t <= 9 # 8) /\
  cubicInterpolate 0 1 1 0 (1 # 2) == 9 # 8 /\
  cubicInterpolate 1 0 0 1 (1 # 2) == - (1 # 8).
Proof.
  split; [|split; [|split; [|split; [|split; [|split]]]]];
    try (unfold cubicInterpolate; ring); try reflexivity.
  apply cubicInterpolate_overshoot.
Qed.

Lemma cubicInterpolate_interpolates_witness :
  - (1 # 8) <= cubicInterpolate 0.2 0.9 0.1 0.8 0.3 <= 9 # 8.
Proof.
  destruct (cubicInterpolate_interpolates 0.2 0.9 0.1 0.8 0 0 0.3)
    as (_ & _ & _ & _ & H & _).
  apply H; split; discriminate.
Defined.

Lemma at_in_range (data : list Q) (k : nat) :
  (k < length data)%nat -> at_ data (Z.of_nat k) = Some (nth k data 0).
Proof.
  intros Hk. unfold at_.
  destruct (Z.ltb_spec (Z.of_nat k) 0); [lia|].
  rewrite Nat2Z.id. apply nth_error_nth'. exact Hk.
Qed.

(** X29.  At a whole position inside the array the interpolated value is
    the sample itself; on an empty array it is 0.5. *)
Theorem getInterpolatedValue_at_sample (data : list Q) (k : nat) :
  getInterpolatedValue [] (inject_Z (Z.of_nat k)) = 0.5 /\
  ((k < length data)%nat ->
   getInterpolatedValue data (inject_Z (Z.of_nat k)) == nth k data 0).
Proof.
  split; [reflexivity|]. intros Hk.
  unfold getInterpolatedValue.
  destruct data as [|first rest] eqn:Ed; [cbn in Hk; lia|].
  rewrite <- Ed in *. clear Ed.
  unfold Math_floor. rewrite Qfloor_Z.
  replace (Z.max 0 (Z.min (Z.of_nat (length data) - 1) (Z.of_nat k)))
    with (Z.of_nat k) by lia.
  rewrite (at_in_range data k Hk). cbn [nullish].
  unfold cubicInterpolate. ring.
Qed.

Lemma getInterpolatedValue_at_sample_witness :
  getInterpolatedValue [0.1; 0.9; 0.4] (inject_Z (Z.of_nat 1)) == 0.9.
Proof.
  apply (proj2 (getInterpolatedValue_at_sample [0.1; 0.9; 0.4] 1)).
  cbn. lia.
Defined.

(** X30.  Clicking the seek bar of a loaded track (positive duration, a
    canvas of positive width) always seeks inside the track, to a time in
    [0, duration]; a click on the playhead at the centre keeps the current
    time; a click further right never seeks earlier; and with no duration
    the click is ignored. *)
Theorem handleClick_seeks_inside
    (x x' width currentTime duration zoomSeconds : Q) :
  (duration <= 0 ->
   handleClick x width currentTime duration zoomSeconds = None) /\
  (0 < duration -> 0 < width ->
   exists seekTime,
     handleClick x width currentTime duration zoomSeconds = Some seekTime /\
     0 <= seekTime <= duration) /\
  (0 < duration -> 0 < width -> 0 <= currentTime <= duration ->
   exists seekTime,
     handleClick (width / 2) width currentTime duration zoomSeconds
       = Some seekTime /\
     seekTime == currentTime) /\
  (0 < duration -> 0 < width -> 0 <= zoomSeconds -> x <= x' ->
   exists seekTime seekTime',
     handleClick x width currentTime duration zoomSeconds = Some seekTime /\
     handleClick x' width currentTime duration zoomSeconds = Some seekTime' /\
     seekTime <= seekTime').
Proof.
  unfold handleClick. split; [|split; [|split]].
  - intros H. apply Qle_bool_iff in H. rewrite H. reflexivity.
  - intros Hd Hw. apply Qle_bool_false_iff in Hd. rewrite Hd.
    eexists. split; [reflexivity|]. apply Math_max_min_clamp. 
    apply Qle_bool_false_iff in Hd. lra.
  - intros Hd Hw Hc. pose proof Hd as Hd'.
    apply Qle_bool_false_iff in Hd. rewrite Hd.
    eexists. split; [reflexivity|].
    assert (E : currentTime
                + (width / 2 - width / 2) * (Math_min duration zoomSeconds / width)
                == currentTime) by ring.
    unfold Math_max, Math_min in *. rewrite E.
    rewrite (Q.min_r duration currentTime) by apply Hc.
    apply Q.max_r. apply Hc.
  - intros Hd Hw Hz Hx. pose proof Hd as Hd'.
    apply Qle_bool_false_iff in Hd. rewrite Hd.
    eexists. eexists. split; [reflexivity|]. split; [reflexivity|].
    apply clamp_mono.
    assert (Hv : 0 <= Math_min duration zoomSeconds).
    { unfold Math_min. apply Q.min_glb; lra. }
    set (v := Math_min duration zoomSeconds) in *.
    assert (Hpp : 0 <= v / width) by (apply Qle_shift_div_l; lra).
    set (tpp := v / width) in *. nra.
Qed.

Lemma handleClick_seeks_inside_witness :
  exists seekTime,
    handleClick 900 300 170 180 30 = Some seekTime /\ 0 <= seekTime <= 180.
Proof.
  apply (proj1 (proj2 (handleClick_seeks_inside 900 900 300 170 180 30)));
    reflexivity.
Defined.

End SeekBarFacts.
